(** * knownhosts: host-key lookups over golang.org/x/crypto/ssh/knownhosts

    A shallow embedding of [knownhosts.go] and the properties of its
    address normaliser, trust store, algorithm resolver, error predicates
    and line writer.

    Conventions of the embedding.
    - A Go [string] is a [string] of 8-bit characters; a Go [[]byte] is a
      [list byte]; a Go [int] is a [Z].
    - A Go slice is a [list]: a nil slice and an empty slice are both [[]]
      (the package only ranges over, appends to and takes the length of its
      slices, and never compares one with nil).  A Go map is a [gmap], a
      nil map the empty one.
    - A Go [error] is a value of the inductive type [error]; [ErrNil] is the
      nil error.  Interface values passed in (callbacks, keys, addresses,
      writers) are not nil.
    - A run-time panic of an indexing or slicing expression is the [None]
      of an [option].
    - Variables a closure captures and updates are passed in and out.
    - Of the libraries the package calls, [net.SplitHostPort], [errors.As],
      [base64.StdEncoding] and the string functions are written out;
      [sort.Slice] is taken by its contract (class [SliceSorter]); the
      matcher, the file system and [bytes.TrimSpace], which only [NewDB]
      uses, are parameters (class [Platform]). *)

From Stdlib Require Import ZArith Lia Strings.Byte Ascii String List Permutation Sorted.
From stdpp Require Import base option list gmap sets strings pretty sorting.

Local Open Scope Z_scope.

(** ** Go strings *)

Module gostring.

(** [len(s)]. *)
Definition len (s : string) : Z := Z.of_nat (String.length s).

(** [s[i]]; [None] when the index is out of range. *)
Definition at_ (s : string) (i : Z) : option ascii :=
  if bool_decide (0 ≤ i) then String.get (Z.to_nat i) s else None.

(** [s[lo:hi]]; [None] unless [0 <= lo <= hi <= len(s)]. *)
Definition slice (s : string) (lo hi : Z) : option string :=
  if bool_decide (0 ≤ lo ∧ lo ≤ hi ∧ hi ≤ len s)
  then Some (String.substring (Z.to_nat lo) (Z.to_nat (hi - lo)) s)
  else None.

(** [s[lo:]] and [s[:hi]] for indices already known to be in range. *)
Definition from (s : string) (lo : Z) : string :=
  String.substring (Z.to_nat lo) (String.length s - Z.to_nat lo) s.
Definition upto (s : string) (hi : Z) : string :=
  String.substring 0 (Z.to_nat hi) s.

(** [bytealg.IndexByteString(s, c)]: first index of [c], or [-1]. *)
Fixpoint IndexByteString (s : string) (c : ascii) : Z :=
  match s with
  | EmptyString => -1
  | String a s' =>
      if Ascii.eqb a c then 0
      else let r := IndexByteString s' c in
           if bool_decide (r < 0) then -1 else r + 1
  end.

(** [last(s, c)] of package net: last index of [c], or [-1]. *)
Fixpoint last (s : string) (c : ascii) : Z :=
  match s with
  | EmptyString => -1
  | String a s' =>
      let r := last s' c in
      if bool_decide (0 ≤ r) then r + 1
      else if Ascii.eqb a c then 0 else -1
  end.

(** [strings.HasPrefix(s, p)]. *)
Definition HasPrefix (s p : string) : bool :=
  bool_decide (len p ≤ len s) && String.eqb (upto s (len p)) p.

(** [strings.HasSuffix(s, p)]. *)
Definition HasSuffix (s p : string) : bool :=
  bool_decide (len p ≤ len s) &&
  String.eqb (from s (len s - len p)) p.

(** [strings.ContainsAny(s, chars)] for a set [chars] of ASCII
    characters: some byte of [s] occurs in [chars]. *)
Fixpoint ContainsAny (s chars : string) : bool :=
  match s with
  | EmptyString => false
  | String a s' =>
      bool_decide (0 ≤ IndexByteString chars a) || ContainsAny s' chars
  end.

(** [strings.Join(elems, sep)]. *)
Definition Join (elems : list string) (sep : string) : string :=
  String.concat sep elems.

End gostring.
Import gostring.

(** ** The libraries the package builds on *)

(** golang.org/x/crypto/ssh. *)
Module ssh.

(** [ssh.PublicKey], an interface, by the two methods this package calls
    on a key ([Verify] is never called here). *)
Record PublicKey := mkPublicKey {
  Type' : string;           (* Type() *)
  Marshal : list Byte.byte  (* Marshal() *)
}.

(** Modelled from the spec: the algorithm identifiers are constants of
    golang.org/x/crypto/ssh, which is not part of these sources; they are
    the names that library negotiates. *)
Definition KeyAlgoRSA := "ssh-rsa".
Definition KeyAlgoDSA := "ssh-dss".
Definition KeyAlgoECDSA256 := "ecdsa-sha2-nistp256".
Definition KeyAlgoSKECDSA256 := "sk-ecdsa-sha2-nistp256@openssh.com".
Definition KeyAlgoECDSA384 := "ecdsa-sha2-nistp384".
Definition KeyAlgoECDSA521 := "ecdsa-sha2-nistp521".
Definition KeyAlgoED25519 := "ssh-ed25519".
Definition KeyAlgoSKED25519 := "sk-ssh-ed25519@openssh.com".
Definition KeyAlgoRSASHA256 := "rsa-sha2-256".
Definition KeyAlgoRSASHA512 := "rsa-sha2-512".

Definition CertAlgoRSAv01 := "ssh-rsa-cert-v01@openssh.com".
Definition CertAlgoDSAv01 := "ssh-dss-cert-v01@openssh.com".
Definition CertAlgoECDSA256v01 := "ecdsa-sha2-nistp256-cert-v01@openssh.com".
Definition CertAlgoECDSA384v01 := "ecdsa-sha2-nistp384-cert-v01@openssh.com".
Definition CertAlgoECDSA521v01 := "ecdsa-sha2-nistp521-cert-v01@openssh.com".
Definition CertAlgoSKECDSA256v01 :=
  "sk-ecdsa-sha2-nistp256-cert-v01@openssh.com".
Definition CertAlgoED25519v01 := "ssh-ed25519-cert-v01@openssh.com".
Definition CertAlgoSKED25519v01 := "sk-ssh-ed25519-cert-v01@openssh.com".
Definition CertAlgoRSASHA256v01 := "rsa-sha2-256-cert-v01@openssh.com".
Definition CertAlgoRSASHA512v01 := "rsa-sha2-512-cert-v01@openssh.com".

(** The [ssh.CertAlgo*] identifiers. *)
Definition CertAlgos : list string :=
  [ CertAlgoRSAv01; CertAlgoDSAv01; CertAlgoECDSA256v01;
    CertAlgoECDSA384v01; CertAlgoECDSA521v01; CertAlgoSKECDSA256v01;
    CertAlgoED25519v01; CertAlgoSKED25519v01; CertAlgoRSASHA256v01;
    CertAlgoRSASHA512v01 ].

End ssh.

(** golang.org/x/crypto/ssh/knownhosts. *)
Module xknownhosts.

Record KnownKey := mkKnownKey {
  Key : ssh.PublicKey;
  Filename : string;
  Line : Z
}.

(** [KeyError]: the structured mismatch, with the keys the files hold for
    the host. *)
Record KeyError := mkKeyError { Want : list KnownKey }.

Record RevokedError := mkRevokedError { Revoked : KnownKey }.

End xknownhosts.

(** [net.Addr], an interface, by its two methods. *)
Module net.
Record Addr := mkAddr {
  Network : string;  (* Network() *)
  String' : string   (* String() *)
}.
End net.

(** ** Errors *)

(** The error values that reach this package, by dynamic type: the two
    error types of golang.org/x/crypto/ssh/knownhosts, [*net.AddrError],
    [errors.New] (also [fmt.Errorf] without [%w]), [fmt.Errorf] with one
    [%w], and [errors.Join].  [ErrNil] is the nil error. *)
#[warnings="-register-all"]
Inductive error :=
| ErrNil
| KeyErr (keyErr : xknownhosts.KeyError)
| RevokedErr (revErr : xknownhosts.RevokedError)
| AddrErr (Err Addr : string)
| errorString (s : string)
| wrapError (msg : string) (err : error)
| joinError (errs : list error).

(** [err != nil]. *)
Definition not_nil (err : error) : bool :=
  match err with ErrNil => false | _ => true end.

(** [errors.As(err, &keyErr)] for a target of type [*xknownhosts.KeyError]:
    the first error of that type met when the tree of [err] is walked
    depth first ([Unwrap() error] for a wrapped error, [Unwrap() []error]
    for a joined one, nil entries skipped); [None] when As returns false. *)
Fixpoint errors_As (err : error) : option xknownhosts.KeyError :=
  match err with
  | ErrNil => None
  | KeyErr keyErr => Some keyErr
  | wrapError _ err' => errors_As err'
  | joinError errs =>
      (fix each (errs : list error) : option xknownhosts.KeyError :=
         match errs with
         | [] => None
         | err' :: errs' =>
             match errors_As err' with
             | Some keyErr => Some keyErr
             | None => each errs'
             end
         end) errs
  | RevokedErr _ | AddrErr _ _ | errorString _ => None
  end.

(** [err] wraps the structured mismatch [keyErr]: it is that error, or
    wraps or joins an error that wraps it. *)
Inductive Wraps : error → xknownhosts.KeyError → Prop :=
| Wraps_here keyErr : Wraps (KeyErr keyErr) keyErr
| Wraps_wrap msg err keyErr :
    Wraps err keyErr → Wraps (wrapError msg err) keyErr
| Wraps_join errs err keyErr :
    err ∈ errs → Wraps err keyErr → Wraps (joinError errs) keyErr.

(** [keyErr] is the first structured mismatch of [err]: the one a walk
    of the tree of [err] meets first, depth first and, in a joined
    error, after entries that wrap none. *)
Inductive FirstWrapped : error → xknownhosts.KeyError → Prop :=
| First_here keyErr : FirstWrapped (KeyErr keyErr) keyErr
| First_wrap msg err keyErr :
    FirstWrapped err keyErr → FirstWrapped (wrapError msg err) keyErr
| First_join pre err post keyErr :
    (∀ err' keyErr', err' ∈ pre → ¬ Wraps err' keyErr') →
    FirstWrapped err keyErr →
    FirstWrapped (joinError (pre ++ err :: post)) keyErr.

(** [err] is a chain: no error of it joins several. *)
Fixpoint chain (err : error) : bool :=
  match err with
  | wrapError _ err' => chain err'
  | joinError _ => false
  | _ => true
  end.

(** [ssh.HostKeyCallback]. *)
Definition ssh_HostKeyCallback : Type :=
  string → net.Addr → ssh.PublicKey → error.

(** ** Address normaliser *)

(** [net.SplitHostPort], returning Go's triple [(host, port, err)]. *)
Definition SplitHostPort (hostport : string) : string * string * error :=
  let missingPort := "missing port in address" in
  let tooManyColons := "too many colons in address" in
  let addrErr (addr why : string) := ("", "", AddrErr why addr) in
  let i := last hostport ":" in
  if bool_decide (i < 0) then addrErr hostport missingPort else
  let bracketed :=
    if bool_decide (at_ hostport 0 = Some "["%char) then
      let end_ := IndexByteString hostport "]" in
      if bool_decide (end_ < 0) then inr (addrErr hostport "missing ']' in address")
      else if bool_decide (end_ + 1 = len hostport) then inr (addrErr hostport missingPort)
      else if bool_decide (end_ + 1 = i) then
        inl (String.substring 1 (Z.to_nat (end_ - 1)) hostport, 1, end_ + 1)
      else if bool_decide (at_ hostport (end_ + 1) = Some ":"%char)
        then inr (addrErr hostport tooManyColons)
        else inr (addrErr hostport missingPort)
    else
      let host := upto hostport i in
      if bool_decide (0 ≤ IndexByteString host ":")
      then inr (addrErr hostport tooManyColons)
      else inl (host, 0, 0) in
  match bracketed with
  | inr e => e
  | inl (host, j, k) =>
      if bool_decide (0 ≤ IndexByteString (from hostport j) "[")
      then addrErr hostport "unexpected '[' in address"
      else if bool_decide (0 ≤ IndexByteString (from hostport k) "]")
      then addrErr hostport "unexpected ']' in address"
      else (host, from hostport (i + 1), ErrNil)
  end.

(** [Normalize]; [None] would be a panic of the slice expression
    [entry[1 : len(entry)-1]]. *)
Definition Normalize (address : string) : option string :=
  let '(host, port, err) := SplitHostPort address in
  let '(host, port) :=
    if not_nil err then (address, "22") else (host, port) in
  let entry := host in
  if bool_decide (port ≠ "22") then
    Some ("[" +:+ entry +:+ "]:" +:+ port)
  else if HasPrefix host "[" && HasSuffix host "]" then
    slice entry 1 (len entry - 1)
  else Some entry.


(** The host and port [Normalize] works with after its call of
    [SplitHostPort]: those of a successful split, or else the whole
    address with the implied port 22. *)
Definition resolved (address : string) : string * string :=
  let '(host, port, err) := SplitHostPort address in
  if not_nil err then (address, "22") else (host, port).

(** ** Package sort *)

(** What [sort.Slice] asks of [less]: a strict weak ordering. *)
Record StrictWeakOrder {A} (less : A → A → bool) : Prop := {
  less_irrefl a : less a a = false;
  less_trans a b c : less a b = true → less b c = true → less a c = true;
  less_incomp_trans a b c :
    less a b = false → less b c = false → less a c = false
}.

(** [sort.Slice(x, less)], by its contract: the slice is rearranged (a
    permutation: the sort is not stable, equal elements may change places)
    so that no element is less than one before it.  Go's [less] takes two
    indices and reads the slice at them; here it takes the two elements. *)
Class SliceSorter := {
  sort_Slice {A} (less : A → A → bool) (x : list A) : list A;
  sort_Slice_perm {A} (less : A → A → bool) x : sort_Slice less x ≡ₚ x;
  sort_Slice_sorted {A} (less : A → A → bool) x :
    StrictWeakOrder less →
    StronglySorted (λ a b, less b a = false) (sort_Slice less x)
}.

(** [insertionSortLessFunc] of package sort, the algorithm [sort.Slice]
    runs on a slice of at most 12 elements: each element in turn is swapped
    leftwards while it is less than its left neighbour.  The sorted prefix
    is kept reversed, its last element first. *)
Fixpoint insert_leftwards {A} (less : A → A → bool) (x : A) (rprefix : list A)
  : list A :=
  match rprefix with
  | [] => [x]
  | y :: rprefix' =>
      if less x y then y :: insert_leftwards less x rprefix' else x :: rprefix
  end.

Definition insertionSort {A} (less : A → A → bool) (data : list A) : list A :=
  reverse (foldl (λ rprefix x, insert_leftwards less x rprefix) [] data).

(** ** The package *)

(** [HostKeyDB]. *)
Record HostKeyDB := mkHostKeyDB {
  callback : ssh_HostKeyCallback;
  isCert : gmap string bool  (* keyed by "filename:line"; nil is [∅] *)
}.

(** [PublicKey]: an [ssh.PublicKey] with the CA flag. *)
Record PublicKey := mkPublicKey {
  PublicKey_ : ssh.PublicKey;  (* the embedded ssh.PublicKey *)
  Cert : bool
}.

(** [fakePublicKey], the placeholder key of the lookup. *)
Definition fakePublicKey : ssh.PublicKey :=
  {| ssh.Type' := "fake-public-key";
     ssh.Marshal := String.list_byte_of_string "fake public key" |}.

(** [&net.TCPAddr{IP: []byte{0, 0, 0, 0}}], by its two methods. *)
Definition placeholderAddr : net.Addr :=
  {| net.Network := "tcp"; net.String' := "0.0.0.0:0" |}.

(** [fmt.Sprintf("%s:%d", filename, line)]. *)
Definition mapKey (filename : string) (line : Z) : string :=
  filename +:+ ":" +:+ pretty line.

(** The closure [knownKeyLess] of [HostKeys], on the two elements it reads. *)
Definition knownKeyLess (ki kj : xknownhosts.KnownKey) : bool :=
  if String.ltb (xknownhosts.Filename ki) (xknownhosts.Filename kj) then true
  else String.eqb (xknownhosts.Filename ki) (xknownhosts.Filename kj)
       && bool_decide (xknownhosts.Line ki < xknownhosts.Line kj).

(** Ascending order of the pair (filename, line): the filenames compare as
    Go strings do, byte by byte, then the line numbers as integers. *)
Definition pos_le (a b : xknownhosts.KnownKey) : Prop :=
  String.ltb (xknownhosts.Filename a) (xknownhosts.Filename b) = true
  ∨ (xknownhosts.Filename a = xknownhosts.Filename b
     ∧ xknownhosts.Line a ≤ xknownhosts.Line b).

(** [keyTypeToCertAlgo]. *)
Definition keyTypeToCertAlgo (keyType : string) : string :=
  if String.eqb keyType ssh.KeyAlgoRSA then ssh.CertAlgoRSAv01
  else if String.eqb keyType ssh.KeyAlgoRSASHA256 then ssh.CertAlgoRSASHA256v01
  else if String.eqb keyType ssh.KeyAlgoRSASHA512 then ssh.CertAlgoRSASHA512v01
  else if String.eqb keyType ssh.KeyAlgoDSA then ssh.CertAlgoDSAv01
  else if String.eqb keyType ssh.KeyAlgoECDSA256 then ssh.CertAlgoECDSA256v01
  else if String.eqb keyType ssh.KeyAlgoSKECDSA256 then ssh.CertAlgoSKECDSA256v01
  else if String.eqb keyType ssh.KeyAlgoECDSA384 then ssh.CertAlgoECDSA384v01
  else if String.eqb keyType ssh.KeyAlgoECDSA521 then ssh.CertAlgoECDSA521v01
  else if String.eqb keyType ssh.KeyAlgoED25519 then ssh.CertAlgoED25519v01
  else if String.eqb keyType ssh.KeyAlgoSKED25519 then ssh.CertAlgoSKED25519v01
  else "".

(** The closure [addAlgo] of [HostKeyAlgorithms]; the two variables it
    captures, [algos] and [seen], are passed in and out. *)
Definition addAlgo (typ : string) (cert : bool)
    (st : list string * gset string) : list string * gset string :=
  let '(algos, seen) := st in
  let typ := if cert then keyTypeToCertAlgo typ else typ in
  if bool_decide (typ ∈ seen) then (algos, seen)
  else (algos ++ [typ], {[typ]} ∪ seen).

(** The body of the loop of [HostKeyAlgorithms]. *)
Definition addKey (st : list string * gset string) (key : PublicKey)
  : list string * gset string :=
  let typ := ssh.Type' (PublicKey_ key) in
  let st :=
    if String.eqb typ ssh.KeyAlgoRSA then
      addAlgo ssh.KeyAlgoRSASHA256 (Cert key)
        (addAlgo ssh.KeyAlgoRSASHA512 (Cert key) st)
    else st in
  addAlgo typ (Cert key) st.

(** What [NewDB] obtains from outside the package.  [xknownhosts_New] is
    [New] of golang.org/x/crypto/ssh/knownhosts; [os_Open] is [os.Open]
    followed by the [bufio.Scanner] over the file; [bytes_TrimSpace] is
    [bytes.TrimSpace]. *)
Record Scanned := mkScanned {
  tokens : list (list Byte.byte);  (* scanner.Bytes() after each Scan() *)
  scanErr : error                  (* scanner.Err() after the last Scan() *)
}.

Class Platform := {
  xknownhosts_New : list string → ssh_HostKeyCallback * error;
  os_Open : string → Scanned + error;
  bytes_TrimSpace : list Byte.byte → list Byte.byte
}.

(** [bytes.HasPrefix(s, prefix)]. *)
Definition bytes_HasPrefix (s prefix : list Byte.byte) : bool :=
  bool_decide (length prefix ≤ length s)%nat &&
  String.eqb (String.string_of_list_byte (take (length prefix) s))
             (String.string_of_list_byte prefix).

(** The test of [NewDB] on a line: after trimming, does it start with
    [@cert-authority] followed by a space or a tab? *)
Definition isCertLine `{Platform} (line : list Byte.byte) : bool :=
  let line := bytes_TrimSpace line in
  bool_decide (15 < Z.of_nat (length line))
  && bytes_HasPrefix line (String.list_byte_of_string "@cert-authority")
  && match line !! 15%nat with
     | Some b => Byte.eqb b " "%byte || Byte.eqb b "009"%byte
     | None => false
     end.

(** The inner loop of [NewDB] over the lines of one file: the line counter
    and the CA index are passed in and out. *)
Fixpoint scanLines `{Platform} (filename : string)
    (lines : list (list Byte.byte)) (lineNum : Z) (isCert : gmap string bool)
  : Z * gmap string bool :=
  match lines with
  | [] => (lineNum, isCert)
  | line :: lines' =>
      let lineNum := lineNum + 1 in
      let isCert :=
        if isCertLine line
        then <[mapKey filename lineNum := true]> isCert else isCert in
      scanLines filename lines' lineNum isCert
  end.

(** The outer loop of [NewDB] over the files: the CA index, or the error
    that ends the construction.  Of the error of
    [fmt.Errorf("knownhosts: %s:%d: %w", ...)] the message is held up to
    the text of the wrapped error. *)
Fixpoint readFiles `{Platform} (files : list string)
    (isCert : gmap string bool) : gmap string bool + error :=
  match files with
  | [] => inl isCert
  | filename :: files' =>
      match os_Open filename with
      | inr err => inr err
      | inl f =>
          let '(lineNum, isCert) := scanLines filename (tokens f) 0 isCert in
          if not_nil (scanErr f) then
            inr (wrapError ("knownhosts: " +:+ filename +:+ ":"
                            +:+ pretty lineNum +:+ ": ") (scanErr f))
          else readFiles files' isCert
      end
  end.

(** [NewDB], returning Go's pair [(hkdb, err)]; [None] is the nil
    pointer. *)
Definition NewDB `{Platform} (files : list string)
  : option HostKeyDB * error :=
  let '(cb, err) := xknownhosts_New files in
  if not_nil err then (None, err) else
  match readFiles files ∅ with
  | inr err => (None, err)
  | inl isCert => (Some {| callback := cb; isCert := isCert |}, ErrNil)
  end.

(** A line of one of [files] on which the test of [NewDB] succeeds, by the
    key of its position. *)
Definition caLine `{Platform} (files : list string) (key : string) : Prop :=
  ∃ filename f (n : nat) line,
    filename ∈ files ∧ os_Open filename = inl f ∧
    tokens f !! n = Some line ∧ isCertLine line = true ∧
    key = mapKey filename (Z.of_nat n + 1).

(** The index holds no other value than [true]. *)
Definition only_true (isCert : gmap string bool) : Prop :=
  ∀ key v, isCert !! key = Some v → v = true.

(** The body of the loop of [HostKeys] that fills [keys[n]] from
    [kkeys[n]]: the key, flagged by the CA index when the index is not
    empty. *)
Definition flagged (hkdb : HostKeyDB) (kkey : xknownhosts.KnownKey)
  : PublicKey :=
  {| PublicKey_ := xknownhosts.Key kkey;
     Cert :=
       if bool_decide (0 < Z.of_nat (size (isCert hkdb))) then
         default false
           (isCert hkdb !! mapKey (xknownhosts.Filename kkey)
                                  (xknownhosts.Line kkey))
       else false |}.

(** The methods of [HostKeyDB]. *)
Module HostKeyDB.
Section methods.
Context `{SliceSorter}.

(** [HostKeyDB.HostKeys]. *)
Definition HostKeys (hkdb : HostKeyDB) (hostWithPort : string)
: list PublicKey :=
let placeholderPubKey := fakePublicKey in
let hkcbErr := callback hkdb hostWithPort placeholderAddr placeholderPubKey in
match errors_As hkcbErr with
| Some keyErr =>
    let kkeys := [] ++ xknownhosts.Want keyErr in
    let kkeys := sort_Slice knownKeyLess kkeys in
    flagged hkdb <$> kkeys
| None => []
end.

(** [HostKeyDB.HostKeyAlgorithms]. *)
Definition HostKeyAlgorithms (hkdb : HostKeyDB) (hostWithPort : string)
: list string :=
let hostKeys := HostKeys hkdb hostWithPort in
let seen : gset string := ∅ in
(foldl addKey ([], seen) hostKeys).1.

(** [HostKeyDB.HostKeyCallback]. *)
Definition HostKeyCallback (hkdb : HostKeyDB) : ssh_HostKeyCallback :=
callback hkdb.

End methods.
End HostKeyDB.

(** [HostKeyCallback], the variant without the CA index. *)
Definition HostKeyCallback : Type := ssh_HostKeyCallback.

(** The methods of [HostKeyCallback]. *)
Module HostKeyCallback.
Section methods.
Context `{SliceSorter}.

(** [HostKeyCallback.HostKeys]: a [HostKeyDB] without an [isCert] map. *)
Definition HostKeys (hkcb : HostKeyCallback) (hostWithPort : string)
: list ssh.PublicKey :=
let hkdb := {| callback := hkcb; isCert := ∅ |} in
let annotatedKeys := HostKeyDB.HostKeys hkdb hostWithPort in
(λ ak, PublicKey_ ak) <$> annotatedKeys.

(** [HostKeyCallback.HostKeyAlgorithms]. *)
Definition HostKeyAlgorithms (hkcb : HostKeyCallback) (hostWithPort : string)
: list string :=
let hkdb := {| callback := hkcb; isCert := ∅ |} in
HostKeyDB.HostKeyAlgorithms hkdb hostWithPort.

(** [HostKeyCallback.HostKeyCallback]. *)
Definition HostKeyCallback (hkcb : HostKeyCallback) : ssh_HostKeyCallback :=
hkcb.

End methods.
End HostKeyCallback.

(** The package-level [HostKeyAlgorithms]. *)
Definition HostKeyAlgorithms `{SliceSorter}
    (cb : ssh_HostKeyCallback) (hostWithPort : string) : list string :=
  HostKeyCallback.HostKeyAlgorithms cb hostWithPort.

(** [IsHostKeyChanged]. *)
Definition IsHostKeyChanged (err : error) : bool :=
  match errors_As err with
  | Some keyErr => bool_decide (0 < Z.of_nat (length (xknownhosts.Want keyErr)))
  | None => false
  end.

(** [IsHostUnknown]. *)
Definition IsHostUnknown (err : error) : bool :=
  match errors_As err with
  | Some keyErr => bool_decide (Z.of_nat (length (xknownhosts.Want keyErr)) = 0)
  | None => false
  end.

(** [base64.StdEncoding.EncodeToString]: three bytes give four characters
    of the standard alphabet; a last group of one or two bytes is padded
    with [=]. *)
Module base64.

Definition encodeStd : string :=
  "ABCDEFGHIJKLMNOPQRSTUVWXYZabcdefghijklmnopqrstuvwxyz0123456789+/".

Definition digit (val : N) (shift : N) : ascii :=
  default "="%char
    (String.get (N.to_nat (N.land (N.shiftr val shift) 63)) encodeStd).

Fixpoint EncodeToString (src : list Byte.byte) : string :=
  match src with
  | [] => ""
  | [b0] =>
      let val := N.shiftl (Byte.to_N b0) 16 in
      String (digit val 18) (String (digit val 12) "==")
  | [b0; b1] =>
      let val := N.lor (N.shiftl (Byte.to_N b0) 16)
                       (N.shiftl (Byte.to_N b1) 8) in
      String (digit val 18) (String (digit val 12) (String (digit val 6) "="))
  | b0 :: b1 :: b2 :: src' =>
      let val := N.lor (N.lor (N.shiftl (Byte.to_N b0) 16)
                              (N.shiftl (Byte.to_N b1) 8))
                       (Byte.to_N b2) in
      String (digit val 18) (String (digit val 12)
        (String (digit val 6) (String (digit val 0) (EncodeToString src'))))
  end.

End base64.

(** [Line]. *)
Definition Line (addresses : list string) (key : ssh.PublicKey)
  : option string :=
  trimmed ← mapM Normalize addresses;
  Some (Join [ Join trimmed ",";
               ssh.Type' key;
               base64.EncodeToString (ssh.Marshal key) ] " ").

(** [io.Writer], an interface: [Write] takes the writer's state and the
    bytes, and gives the new state with Go's pair [(n, err)]. *)
Class Writer (W : Type) := Write : W → list Byte.byte → W * (Z * error).

(** [*bytes.Buffer] as a writer: the bytes are appended, no error. *)
#[export] Instance Buffer_Writer : Writer (list Byte.byte) :=
  λ buf p, (buf ++ p, (Z.of_nat (length p), ErrNil)).

(** The character set ["\t "] of the two whitespace tests. *)
Definition tab_space : string := String "009" (String " " "").

(** [WriteKnownHost]: the writer's state after the call and the error
    returned. *)
Definition WriteKnownHost {W} `{Writer W} (w : W) (hostname : string)
    (remote : net.Addr) (key : ssh.PublicKey) : option (W * error) :=
  hostnameNormalized ← Normalize hostname;
  if ContainsAny hostnameNormalized tab_space then
    Some (w, errorString ("knownhosts: hostname '" +:+ hostnameNormalized
                          +:+ "' contains spaces"))
  else
    let addresses := [hostnameNormalized] in
    remoteStrNormalized ← Normalize (net.String' remote);
    let addresses :=
      if negb (String.eqb remoteStrNormalized "[0.0.0.0]:0")
         && negb (String.eqb remoteStrNormalized hostnameNormalized)
         && negb (ContainsAny remoteStrNormalized tab_space)
      then addresses ++ [remoteStrNormalized] else addresses in
    line ← Line addresses key;
    let line := line +:+ String "010" "" in
    let '(w', (_, err)) := Write w (String.list_byte_of_string line) in
    Some (w', err).


(** ** The algorithm list, in the words of its description *)

(** The identifier recorded for [typ]: its certificate-algorithm
    substitution when the entry is flagged as CA, [typ] itself otherwise. *)
Definition substituted (cert : bool) (typ : string) : string :=
  if cert then keyTypeToCertAlgo typ else typ.

(** The identifiers one known key offers, in order: for the generic RSA
    type the two SHA-2 signature algorithms come first, then the type
    itself; each substituted when the key is flagged as CA. *)
Definition offered (key : PublicKey) : list string :=
  let typ := ssh.Type' (PublicKey_ key) in
  substituted (Cert key) <$>
    (if String.eqb typ ssh.KeyAlgoRSA
     then [ssh.KeyAlgoRSASHA512; ssh.KeyAlgoRSASHA256] else []) ++ [typ].

(** The sequence [l] without the strings already in [seen] and without
    repetitions: each string is kept where it is first seen. *)
Fixpoint first_seen (seen l : list string) : list string :=
  match l with
  | [] => []
  | a :: l' =>
      if decide (a ∈ seen) then first_seen seen l'
      else a :: first_seen (seen ++ [a]) l'
  end.

(** The key types the substitution table of [keyTypeToCertAlgo] lists. *)
Definition mappedKeyTypes : list string :=
  [ ssh.KeyAlgoRSA; ssh.KeyAlgoRSASHA256; ssh.KeyAlgoRSASHA512;
    ssh.KeyAlgoDSA; ssh.KeyAlgoECDSA256; ssh.KeyAlgoSKECDSA256;
    ssh.KeyAlgoECDSA384; ssh.KeyAlgoECDSA521; ssh.KeyAlgoED25519;
    ssh.KeyAlgoSKED25519 ].

(** The invariant of the resolver's loop: [seen] holds exactly the strings
    of [algos]. *)
Definition tracks (st : list string * gset string) : Prop :=
  ∀ x, x ∈ st.2 ↔ x ∈ st.1.


(** ** Sample known_hosts data *)

Module sample.
Import xknownhosts.

Definition rsaKey : ssh.PublicKey :=
  {| ssh.Type' := ssh.KeyAlgoRSA; ssh.Marshal := [x00; x00; x00; x07; x01] |}.
Definition rsaKey2 : ssh.PublicKey :=
  {| ssh.Type' := ssh.KeyAlgoRSA; ssh.Marshal := [x00; x00; x00; x07; x02] |}.
Definition ed25519Key : ssh.PublicKey :=
  {| ssh.Type' := ssh.KeyAlgoED25519; ssh.Marshal := [x00; x00; x00; x0b; x03] |}.
Definition ecdsaKey : ssh.PublicKey :=
  {| ssh.Type' := ssh.KeyAlgoECDSA256; ssh.Marshal := [x00; x00; x00; x13; x04] |}.
(** A certificate: its type is a certificate-algorithm identifier, which
    the substitution table does not list as a key type. *)
Definition ed25519Cert : ssh.PublicKey :=
  {| ssh.Type' := ssh.CertAlgoED25519v01;
     ssh.Marshal := [x00; x00; x00; x20; x06] |}.

(** A matcher that knows the keys [want] for the host [example.com:22]
    and no key for any other host. *)
Definition matcher (want : list KnownKey) : ssh_HostKeyCallback :=
  λ hostname _ _,
    if String.eqb hostname "example.com:22"
    then KeyErr {| Want := want |}
    else KeyErr {| Want := [] |}.

(** A callback that fails with an error of another kind. *)
Definition failing : ssh_HostKeyCallback :=
  λ _ _ _, errorString "knownhosts: i/o timeout".

(** Three keys of the host, from two files, in no particular order. *)
Definition threeKeys : list KnownKey :=
  [ {| Key := ed25519Key; Filename := "b/known_hosts"; Line := 3 |};
    {| Key := rsaKey; Filename := "a/known_hosts"; Line := 7 |};
    {| Key := ecdsaKey; Filename := "a/known_hosts"; Line := 2 |} ].

(** The CA index of a store whose file [a/known_hosts] has an
    [@cert-authority] line at line 7. *)
Definition caLine7 : gmap string bool := {[ "a/known_hosts:7" := true ]}.

(** A platform with two files, [a/known_hosts] with an [@cert-authority]
    line as its line 7 and [b/known_hosts] without any; trimming removes
    spaces and tabs at both ends, as [bytes.TrimSpace] does on such
    lines. *)
Definition plainLine : list Byte.byte :=
  String.list_byte_of_string "example.com ssh-ed25519 AAAAC3Nz".
Definition certAuthorityLine : list Byte.byte :=
  String.list_byte_of_string "  @cert-authority *.example.com ssh-rsa AAAAB3Nz ".
Definition blank (b : Byte.byte) : bool :=
  Byte.eqb b " "%byte || Byte.eqb b "009"%byte.
Fixpoint dropBlanks (line : list Byte.byte) : list Byte.byte :=
  match line with
  | b :: line' => if blank b then dropBlanks line' else line
  | [] => []
  end.
Definition trimBlanks (line : list Byte.byte) : list Byte.byte :=
  reverse (dropBlanks (reverse (dropBlanks line))).

#[export] Instance platform : Platform := {|
  xknownhosts_New := λ _, (matcher threeKeys, ErrNil);
  os_Open := λ filename,
    if String.eqb filename "a/known_hosts" then
      inl {| tokens := replicate 6 plainLine ++ [certAuthorityLine; plainLine];
             scanErr := ErrNil |}
    else if String.eqb filename "b/known_hosts" then
      inl {| tokens := replicate 4 plainLine; scanErr := ErrNil |}
    else inr (errorString "open: no such file or directory");
  bytes_TrimSpace := trimBlanks
|}.

End sample.

(** ** The rest of the package and its use *)

(** [New], returning Go's pair [(hkcb, err)]. *)
Definition New `{Platform} (files : list string) : HostKeyCallback * error :=
  let '(cb, err) := xknownhosts_New files in (cb, err).

(** The characters of a string. *)
Definition chars (s : string) : list ascii := String.list_ascii_of_string s.
Global Arguments chars : simpl never.

(** A platform on which [b/known_hosts] is cut short by a read error
    after two lines and [c/known_hosts] cannot be opened. *)
Module sample_faults.

Definition readError : error := errorString "read b/known_hosts: input/output error".
Definition openError : error := errorString "open c/known_hosts: permission denied".

#[export] Instance platform : Platform := {|
  xknownhosts_New := λ _, (sample.matcher sample.threeKeys, ErrNil);
  os_Open := λ filename,
    if String.eqb filename "a/known_hosts" then
      inl {| tokens := [sample.plainLine; sample.certAuthorityLine];
             scanErr := ErrNil |}
    else if String.eqb filename "b/known_hosts" then
      inl {| tokens := [sample.plainLine; sample.plainLine];
             scanErr := readError |}
    else inr openError;
  bytes_TrimSpace := sample.trimBlanks
|}.

End sample_faults.

(** A platform whose matcher depends on the order of the files, as the
    matcher of golang.org/x/crypto/ssh/knownhosts does: of the lines that
    match the host it keeps, for each key type, the first one in the
    order in which the files were given.  The two files each hold an
    ed25519 key and an RSA key of [example.com], not the same ones. *)
Module sample_order.
Import xknownhosts.

Definition ed25519Key2 : ssh.PublicKey :=
  {| ssh.Type' := ssh.KeyAlgoED25519; ssh.Marshal := [x00; x00; x00; x0b; x05] |}.

Definition entries (filename : string) : list KnownKey :=
  if String.eqb filename "p/known_hosts" then
    [ {| Key := sample.ed25519Key; Filename := "p/known_hosts"; Line := 1 |};
      {| Key := sample.rsaKey; Filename := "p/known_hosts"; Line := 2 |} ]
  else if String.eqb filename "q/known_hosts" then
    [ {| Key := sample.rsaKey2; Filename := "q/known_hosts"; Line := 1 |};
      {| Key := ed25519Key2; Filename := "q/known_hosts"; Line := 2 |} ]
  else [].

Fixpoint firstPerType (seen : list string) (lines : list KnownKey)
  : list KnownKey :=
  match lines with
  | [] => []
  | l :: lines' =>
      let typ := ssh.Type' (Key l) in
      if bool_decide (typ ∈ seen) then firstPerType seen lines'
      else l :: firstPerType (typ :: seen) lines'
  end.

Definition matcher (files : list string) : ssh_HostKeyCallback :=
  λ hostname _ _,
    if String.eqb hostname "example.com:22"
    then KeyErr {| Want := firstPerType [] (files ≫= entries) |}
    else KeyErr {| Want := [] |}.

#[export] Instance platform : Platform := {|
  xknownhosts_New := λ files, (matcher files, ErrNil);
  os_Open := λ filename,
    if String.eqb filename "p/known_hosts" then
      inl {| tokens :=
               [ String.list_byte_of_string "example.com ssh-ed25519 AAAAC3Nz";
                 String.list_byte_of_string "example.com ssh-rsa AAAAB3Nz" ];
             scanErr := ErrNil |}
    else if String.eqb filename "q/known_hosts" then
      inl {| tokens :=
               [ String.list_byte_of_string "example.com ssh-rsa AAAAB3Nw";
                 String.list_byte_of_string "example.com ssh-ed25519 AAAAC3Nw" ];
             scanErr := ErrNil |}
    else inr (errorString "open: no such file or directory");
  bytes_TrimSpace := sample.trimBlanks
|}.

End sample_order.

(** ** The demonstration command, cmd/main.go *)

Module cmd.
Section callbacks.
Context {W : Type} `{Writer W}.

(** The body the two permissive host key callbacks of the command share,
    for the callback [inner] they ask first.  [opened] is what
    [os.OpenFile(khPath, os.O_APPEND|os.O_WRONLY, 0600)] gives when it is
    called: the file, a writer, or an error.  The result is the file
    after the call, if it was opened, and the error returned.  The calls
    of package log are left out: they print to standard error, and
    neither the file nor the error returned depends on them; the error
    of the deferred [f.Close()] is dropped by the code. *)
Definition permissive (inner : ssh_HostKeyCallback) (opened : W + error)
    (hostname : string) (remote : net.Addr) (key : ssh.PublicKey)
  : option (option W * error) :=
  let err := inner hostname remote key in
  if IsHostKeyChanged err then
    Some (None, errorString
            ("REMOTE HOST IDENTIFICATION HAS CHANGED for host " +:+ hostname
             +:+ "! This may indicate a MitM attack."))
  else if IsHostUnknown err then
    match opened with
    | inl f =>
        '(f', ferr) ← WriteKnownHost f hostname remote key;
        Some (Some f', ErrNil)
    | inr ferr => Some (None, ErrNil)
    end
  else Some (None, err).

(** The callback of [NewDBWriteKnownHost]: [inner] is
    [kh.HostKeyCallback()] for the store [kh]. *)
Definition NewDBWriteKnownHost_cb (kh : HostKeyDB) :=
  permissive (HostKeyDB.HostKeyCallback kh).

(** The callback of [NewWriteKnownHost]: [inner] is the callback [kh]
    itself. *)
Definition NewWriteKnownHost_cb (kh : HostKeyCallback) :=
  permissive kh.

End callbacks.
End cmd.

(** * Properties *)

(** ** Facts about Go strings *)

Section string_facts.
Implicit Types s p q : string.

Lemma length_app s p :
  String.length (s +:+ p) = (String.length s + String.length p)%nat.
Proof. induction s as [|a s IH]; simpl; [done|]. by rewrite IH. Qed.

Lemma substring_all s : String.substring 0 (String.length s) s = s.
Proof. induction s as [|a s IH]; simpl; [done|]. by rewrite IH. Qed.

Lemma substring_app_l s p :
  String.substring 0 (String.length s) (s +:+ p) = s.
Proof.
  induction s as [|a s IH]; simpl; [by destruct p|]. by rewrite IH.
Qed.

Lemma substring_app_r s p :
  String.substring (String.length s) (String.length p) (s +:+ p) = p.
Proof.
  induction s as [|a s IH]; simpl; [apply substring_all|]. apply IH.
Qed.

Lemma substring_split s (n : nat) :
  (n ≤ String.length s)%nat →
  s = String.substring 0 n s +:+ String.substring n (String.length s - n) s.
Proof.
  revert n. induction s as [|a s IH]; intros [|n] Hn; simpl in *; try lia.
  - done.
  - by rewrite substring_all.
  - change (String a ?x +:+ ?y) with (String a (x +:+ y)).
    by rewrite <-IH by lia.
Qed.

Lemma HasPrefix_true s p :
  HasPrefix s p = true → ∃ q, s = p +:+ q.
Proof.
  unfold HasPrefix, upto, len. intros [Hlen Heq]%andb_prop.
  apply bool_decide_eq_true in Hlen. apply String.eqb_eq in Heq.
  rewrite Nat2Z.id in Heq.
  pose proof (substring_split s (String.length p)) as Hs.
  rewrite Heq in Hs. eexists. apply Hs. lia.
Qed.

Lemma HasPrefix_app p q : HasPrefix (p +:+ q) p = true.
Proof.
  unfold HasPrefix, upto, len. rewrite length_app, Nat2Z.id.
  apply andb_true_intro; split; [apply bool_decide_eq_true; lia|].
  apply String.eqb_eq, substring_app_l.
Qed.

Lemma HasSuffix_true s p :
  HasSuffix s p = true → ∃ q, s = q +:+ p.
Proof.
  unfold HasSuffix, from, len. intros [Hlen Heq]%andb_prop.
  apply bool_decide_eq_true in Hlen. apply String.eqb_eq in Heq.
  exists (String.substring 0 (String.length s - String.length p) s).
  replace (Z.to_nat (Z.of_nat (String.length s) - Z.of_nat (String.length p)))
    with (String.length s - String.length p)%nat in Heq by lia.
  pose proof (substring_split s (String.length s - String.length p)) as Hs.
  replace (String.length s - (String.length s - String.length p))%nat
    with (String.length s - Z.to_nat (Z.of_nat (String.length s)
            - Z.of_nat (String.length p)))%nat in Hs by lia.
  replace (Z.to_nat (Z.of_nat (String.length s) - Z.of_nat (String.length p)))
    with (String.length s - String.length p)%nat in Hs by lia.
  rewrite Heq in Hs. apply Hs. lia.
Qed.

Lemma HasSuffix_app q p : HasSuffix (q +:+ p) p = true.
Proof.
  unfold HasSuffix, from, len. rewrite length_app.
  apply andb_true_intro; split; [apply bool_decide_eq_true; lia|].
  apply String.eqb_eq.
  replace (Z.to_nat _) with (String.length q) by lia.
  replace (_ + _ - _)%nat with (String.length p) by lia.
  apply substring_app_r.
Qed.

(** A string is bracketed, in the sense of the two tests of [Normalize],
    exactly when it is ["[" ++ inner ++ "]"]; the slice then yields
    [inner]. *)
Lemma bracketed_true s :
  HasPrefix s "[" && HasSuffix s "]" = true →
  ∃ inner, s = "[" +:+ inner +:+ "]" ∧ slice s 1 (len s - 1) = Some inner.
Proof.
  intros [Hp Hs]%andb_prop.
  apply HasPrefix_true in Hp as [s' ->].
  change ("[" +:+ s') with (String "[" s') in *.
  apply HasSuffix_true in Hs as [q Hq].
  destruct q as [|b q]; [done|].
  change (String b q +:+ "]") with (String b (q +:+ "]")) in Hq.
  injection Hq as <- ->.
  exists q. split; [done|].
  unfold slice, len. simpl String.length. rewrite length_app. simpl String.length.
  rewrite bool_decide_eq_true_2 by lia. f_equal.
  replace (Z.to_nat (_ - 1 - 1)) with (String.length q) by lia.
  change (Z.to_nat 1) with 1%nat. simpl. apply substring_app_l.
Qed.

Lemma bracketed_false s :
  HasPrefix s "[" && HasSuffix s "]" = false →
  ∀ inner, s ≠ "[" +:+ inner +:+ "]".
Proof.
  intros Hb inner ->. apply not_true_iff_false in Hb. apply Hb.
  apply andb_true_intro; split.
  - apply (HasPrefix_app "[" (inner +:+ "]")).
  - apply (HasSuffix_app (String "[" inner) "]").
Qed.

End string_facts.

(** C7: [Normalize] never fails.  With the host and port of a successful
    split, or else the whole address as host and the implied port 22: a
    port other than 22 gives ["[host]:port"]; port 22 gives the host, or
    what stands between its brackets when the host is bracketed.  So
    [Normalize "[::1]:22"] is ["::1"], and [Normalize "host"] and
    [Normalize "host:22"] are both ["host"]. *)
Theorem Normalize_shape :
  (∀ address,
     let '(host, port) := resolved address in
     (port ≠ "22" ∧ Normalize address = Some ("[" +:+ host +:+ "]:" +:+ port)) ∨
     (port = "22" ∧
        ∃ inner, host = "[" +:+ inner +:+ "]" ∧ Normalize address = Some inner) ∨
     (port = "22" ∧ (∀ inner, host ≠ "[" +:+ inner +:+ "]") ∧
        Normalize address = Some host)) ∧
  (∀ address, not_nil (SplitHostPort address).2 = true →
     resolved address = (address, "22")) ∧
  (∀ address host port, SplitHostPort address = (host, port, ErrNil) →
     resolved address = (host, port)) ∧
  Normalize "[::1]:22" = Some "::1" ∧
  Normalize "host" = Some "host" ∧
  Normalize "host:22" = Some "host" ∧
  Normalize "[::1]" = Some "::1" ∧
  Normalize "host:2222" = Some "[host]:2222".
Proof.
  split_and!; try (by vm_compute).
  - intros address. unfold resolved, Normalize.
    destruct (SplitHostPort address) as [[h p] e].
    destruct (if not_nil e then _ else _) as [host port].
    case_bool_decide as Hport; [by left|right].
    destruct (HasPrefix host "[" && HasSuffix host "]") eqn:Hb.
    + left. split; [done|]. apply bracketed_true in Hb as (inner & ? & ?). eauto.
    + right. split; [done|]. split; [|done]. by apply bracketed_false.
  - intros address. unfold resolved.
    destruct (SplitHostPort address) as [[h p] e]. simpl. by intros ->.
  - intros address host port Hsplit. unfold resolved. by rewrite Hsplit.
Qed.

(** ** The insertion sort meets the contract of [sort.Slice] *)

Section insertion_sort.
Context {A : Type} (less : A → A → bool).

Let later : relation A := λ a b, less a b = false.

Lemma insert_leftwards_perm x rprefix :
  insert_leftwards less x rprefix ≡ₚ x :: rprefix.
Proof.
  induction rprefix as [|y r IH]; simpl; [done|].
  destruct (less x y); [|done]. rewrite IH. apply perm_swap.
Qed.

Lemma insertionSort_perm data : insertionSort less data ≡ₚ data.
Proof.
  unfold insertionSort. rewrite reverse_Permutation.
  cut (∀ acc, foldl (λ r x, insert_leftwards less x r) acc data
              ≡ₚ acc ++ data).
  { intros Hc. apply Hc. }
  induction data as [|x data IH]; intros acc; simpl.
  - by rewrite app_nil_r.
  - rewrite IH, insert_leftwards_perm. simpl. apply Permutation_middle.
Qed.

Context (Hless : StrictWeakOrder less).

Lemma less_asym a b : less a b = true → less b a = false.
Proof.
  intros Hab. destruct (less b a) eqn:Hba; [|done].
  pose proof (less_trans _ Hless _ _ _ Hab Hba) as Haa.
  by rewrite (less_irrefl _ Hless) in Haa.
Qed.

Lemma HdRel_insert_leftwards y x rprefix :
  later y x → HdRel later y rprefix →
  HdRel later y (insert_leftwards less x rprefix).
Proof.
  intros Hyx Hy. destruct rprefix as [|z r]; simpl; [by constructor|].
  destruct (less x z); constructor; [by inversion Hy|done].
Qed.

Lemma Sorted_insert_leftwards x rprefix :
  Sorted later rprefix → Sorted later (insert_leftwards less x rprefix).
Proof.
  induction 1 as [|y r Hr IH Hy]; simpl; [by repeat constructor|].
  destruct (less x y) eqn:Hxy.
  - constructor; [done|].
    apply HdRel_insert_leftwards; [by apply less_asym|done].
  - by repeat constructor.
Qed.

Lemma insertionSort_sorted data :
  StronglySorted (λ a b, less b a = false) (insertionSort less data).
Proof.
  apply Sorted_StronglySorted.
  { intros a b c Hba Hcb. exact (less_incomp_trans _ Hless _ _ _ Hcb Hba). }
  unfold insertionSort. apply (Sorted_reverse later).
  cut (∀ acc, Sorted later acc →
         Sorted later (foldl (λ r x, insert_leftwards less x r) acc data)).
  { intros Hc. apply Hc. constructor. }
  induction data as [|x data IH]; intros acc Hacc; simpl; [done|].
  by apply IH, Sorted_insert_leftwards.
Qed.

End insertion_sort.

(** [sort.Slice] as it runs on slices of at most 12 elements. *)
#[export] Instance insertion_SliceSorter : SliceSorter := {|
  sort_Slice := @insertionSort;
  sort_Slice_perm := @insertionSort_perm;
  sort_Slice_sorted := λ A less x Hless, insertionSort_sorted less Hless x
|}.

(** ** The order of [knownKeyLess] *)

Section string_order.
Implicit Types s t u : string.

Lemma str_compare_refl s : String.compare s s = Eq.
Proof.
  induction s as [|a s IH]; simpl; [done|].
  unfold Ascii.compare. by rewrite N.compare_refl.
Qed.

Lemma str_ltb_leb s t : String.ltb s t = negb (String.leb t s).
Proof.
  unfold String.ltb, String.leb. rewrite (String.compare_antisym s t).
  by destruct (String.compare t s).
Qed.

Lemma str_ltb_irrefl s : String.ltb s s = false.
Proof. unfold String.ltb. by rewrite str_compare_refl. Qed.

Lemma str_ltb_trans s t u :
  String.ltb s t = true → String.ltb t u = true → String.ltb s u = true.
Proof.
  rewrite !str_ltb_leb, !negb_true_iff. intros Hts Hut.
  destruct (String.leb u s) eqn:Hus; [exfalso|done].
  assert (String.le s t) as Hst.
  { destruct (total String.le s t) as [|Hc]; [done|].
    unfold String.le in Hc. by rewrite Hts in Hc. }
  assert (String.le u t) as Hut'.
  { etrans; [|exact Hst]. unfold String.le. by rewrite Hus. }
  unfold String.le in Hut'. by rewrite Hut in Hut'.
Qed.

Lemma str_trichotomy s t :
  String.ltb s t = true ∨ s = t ∨ String.ltb t s = true.
Proof.
  unfold String.ltb. rewrite (String.compare_antisym t s).
  destruct (String.compare s t) eqn:Hc; simpl; auto.
  right; left. by apply String.compare_eq_iff.
Qed.

Lemma str_ltb_asym s t : String.ltb s t = true → String.ltb t s = false.
Proof.
  intros Hst. destruct (String.ltb t s) eqn:Hts; [|done].
  pose proof (str_ltb_trans _ _ _ Hst Hts) as Hss.
  by rewrite str_ltb_irrefl in Hss.
Qed.

End string_order.

Section known_key_order.
Import xknownhosts.
Implicit Types a b c : KnownKey.

Lemma pos_le_refl a : pos_le a a.
Proof. right. split; [done|lia]. Qed.

Lemma pos_le_trans a b c : pos_le a b → pos_le b c → pos_le a c.
Proof.
  intros [Hab|[Hab Hlab]] [Hbc|[Hbc Hlbc]].
  - left. by eapply str_ltb_trans.
  - left. by rewrite <-Hbc.
  - left. by rewrite Hab.
  - right. split; [congruence|lia].
Qed.

Lemma pos_le_total a b : pos_le a b ∨ pos_le b a.
Proof.
  destruct (str_trichotomy (Filename a) (Filename b)) as [?|[Heq|?]].
  - by left; left.
  - destruct (Z.le_ge_cases (Line a) (Line b)).
    + left; right. done.
    + right; right. done.
  - by right; left.
Qed.

(** [knownKeyLess] is the strict part of [pos_le]. *)
Lemma knownKeyLess_false a b : knownKeyLess b a = false ↔ pos_le a b.
Proof.
  unfold knownKeyLess, pos_le.
  destruct (str_trichotomy (Filename a) (Filename b)) as [Hlt|[Heq|Hgt]].
  - rewrite (str_ltb_asym _ _ Hlt).
    assert (String.eqb (Filename b) (Filename a) = false) as ->.
    { apply String.eqb_neq. intros Heq. rewrite Heq in Hlt.
      by rewrite str_ltb_irrefl in Hlt. }
    split; [by left|done].
  - rewrite Heq, str_ltb_irrefl, String.eqb_refl. simpl.
    rewrite bool_decide_eq_false. split; [right; split; [done|lia]|].
    intros [?|[_ ?]]; [done|lia].
  - rewrite Hgt. split; [done|]. intros [Hlt|[Heq _]]; exfalso.
    + by rewrite (str_ltb_asym _ _ Hgt) in Hlt.
    + rewrite Heq in Hgt. by rewrite str_ltb_irrefl in Hgt.
Qed.

Lemma knownKeyLess_swo : StrictWeakOrder knownKeyLess.
Proof.
  split.
  - intros a. apply knownKeyLess_false, pos_le_refl.
  - intros a b c Hab Hbc.
    destruct (knownKeyLess a c) eqn:Hac; [done|exfalso].
    apply knownKeyLess_false in Hac.
    destruct (pos_le_total a b) as [Hle|Hle];
      [|apply knownKeyLess_false in Hle; congruence].
    pose proof (pos_le_trans _ _ _ Hac Hle) as Hcb.
    apply knownKeyLess_false in Hcb. congruence.
  - intros a b c Hab Hbc. apply knownKeyLess_false.
    apply knownKeyLess_false in Hab, Hbc. by eapply pos_le_trans.
Qed.

End known_key_order.

(** ** [HostKeys] *)

Section host_keys.
Context `{SliceSorter}.
Import xknownhosts.

Lemma sort_Slice_nil {A} (less : A → A → bool) : sort_Slice less [] = [].
Proof. apply Permutation_nil_r. by rewrite sort_Slice_perm. Qed.

Lemma sort_Slice_singleton {A} (less : A → A → bool) a :
  sort_Slice less [a] = [a].
Proof. apply Permutation_singleton_r. by rewrite sort_Slice_perm. Qed.

Lemma StronglySorted_weaken {A} (R R' : relation A) l :
  (∀ a b, R a b → R' a b) → StronglySorted R l → StronglySorted R' l.
Proof.
  intros HR. induction 1 as [|a l _ IH Ha]; constructor; [done|].
  eapply Forall_impl; [exact Ha|]. apply HR.
Qed.

Lemma sort_knownKeyLess_sorted kkeys :
  StronglySorted pos_le (sort_Slice knownKeyLess kkeys).
Proof.
  eapply StronglySorted_weaken; [|apply sort_Slice_sorted, knownKeyLess_swo].
  intros a b. apply knownKeyLess_false.
Qed.

(** What [HostKeys] returns on a structured mismatch and otherwise. *)
Lemma HostKeys_mismatch hkdb host keyErr :
  errors_As (callback hkdb host placeholderAddr fakePublicKey) = Some keyErr →
  HostKeyDB.HostKeys hkdb host
  = flagged hkdb <$> sort_Slice knownKeyLess (Want keyErr).
Proof. unfold HostKeyDB.HostKeys. by intros ->. Qed.

Lemma HostKeys_no_mismatch hkdb host :
  errors_As (callback hkdb host placeholderAddr fakePublicKey) = None →
  HostKeyDB.HostKeys hkdb host = [].
Proof. unfold HostKeyDB.HostKeys. by intros ->. Qed.

(** Two arrangements of the same known keys sort to the same list when
    no two distinct keys share a file and line. *)
Lemma sort_knownKeyLess_unique kkeys kkeys' :
  kkeys' ≡ₚ kkeys →
  (∀ a b, a ∈ kkeys → b ∈ kkeys →
     Filename a = Filename b → Line a = Line b → a = b) →
  sort_Slice knownKeyLess kkeys' = sort_Slice knownKeyLess kkeys.
Proof.
  intros Hperm Hpos.
  apply (StronglySorted_unique_strong pos_le);
    [|apply sort_knownKeyLess_sorted..|by rewrite !sort_Slice_perm].
  intros a b Ha Hb Hab Hba.
  rewrite sort_Slice_perm, Hperm in Ha. rewrite sort_Slice_perm in Hb.
  assert (Filename a = Filename b) as Hf.
  { destruct Hab as [Hab|[? _]], Hba as [Hba|[? _]]; try done.
    by rewrite (str_ltb_asym _ _ Hab) in Hba. }
  apply Hpos; [done..|].
  destruct Hab as [Hab|[_ ?]], Hba as [Hba|[_ ?]];
    rewrite ?Hf, ?str_ltb_irrefl in *; try done. lia.
Qed.

End host_keys.

(** ** The CA index [NewDB] builds *)

Section new_db.
Context `{Platform}.

Lemma scanLines_index filename lines lineNum m :
  only_true m →
  only_true (scanLines filename lines lineNum m).2 ∧
  ∀ key,
    (scanLines filename lines lineNum m).2 !! key = Some true ↔
    m !! key = Some true
    ∨ ∃ (n : nat) line,
        lines !! n = Some line ∧ isCertLine line = true ∧
        key = mapKey filename (lineNum + Z.of_nat n + 1).
Proof.
  revert lineNum m. induction lines as [|line lines IH]; intros lineNum m Hm.
  - simpl. split; [done|]. intros key. split; [by left|].
    by intros [?|(n & line & ? & _)].
  - simpl. set (m1 := if isCertLine line then _ else m).
    assert (only_true m1) as Hm1.
    { unfold m1. destruct (isCertLine line); [|done]. intros key v.
      destruct (decide (mapKey filename (lineNum + 1) = key)) as [<-|Hne].
      - rewrite lookup_insert_eq. by intros [= <-].
      - rewrite lookup_insert_ne by done. apply Hm. }
    destruct (IH (lineNum + 1) m1 Hm1) as [Htrue Hiff]. split; [done|].
    intros key. rewrite Hiff. clear Hiff Htrue IH. split.
    + intros [Hkey|(n & line' & Hn & Hca & ->)].
      * unfold m1 in Hkey. destruct (isCertLine line) eqn:Hline; [|by left].
        destruct (decide (mapKey filename (lineNum + 1) = key)) as [<-|Hne].
        -- right. exists 0%nat, line. split_and!; [done|done|].
           f_equal. lia.
        -- rewrite lookup_insert_ne in Hkey by done. by left.
      * right. exists (S n), line'. split_and!; [done|done|]. f_equal. lia.
    + intros [Hkey|(n & line' & Hn & Hca & ->)].
      * left. unfold m1. destruct (isCertLine line); [|done].
        destruct (decide (mapKey filename (lineNum + 1) = key)) as [<-|Hne].
        -- by rewrite lookup_insert_eq.
        -- by rewrite lookup_insert_ne.
      * destruct n as [|n]; simpl in Hn.
        -- injection Hn as <-. left. unfold m1. rewrite Hca.
           replace (lineNum + Z.of_nat 0 + 1) with (lineNum + 1) by lia.
           by rewrite lookup_insert_eq.
        -- right. exists n, line'. split_and!; [done|done|]. f_equal. lia.
Qed.

Lemma readFiles_index files m m' :
  readFiles files m = inl m' → only_true m →
  only_true m' ∧
  ∀ key, m' !! key = Some true ↔ m !! key = Some true ∨ caLine files key.
Proof.
  revert m. induction files as [|filename files IH]; intros m Hread Hm.
  - injection Hread as <-. split; [done|]. intros key. split; [by left|].
    intros [?|(filename & f & n & line & Hin & _)]; [done|].
    by apply elem_of_nil in Hin.
  - simpl in Hread. destruct (os_Open filename) as [f|err] eqn:Hopen; [|done].
    destruct (scanLines_index filename (tokens f) 0 m Hm) as [Htrue Hiff].
    destruct (scanLines filename (tokens f) 0 m) as [lineNum m1].
    destruct (not_nil (scanErr f)); [done|].
    destruct (IH m1 Hread Htrue) as [Htrue' Hiff']. split; [done|].
    intros key. rewrite Hiff'. simpl in Hiff. rewrite Hiff. split.
    + intros [[?|(n & line & Hn & Hca & ->)]|Hca]; [by left|..].
      * right. exists filename, f, n, line. split_and!; try done. by left.
      * destruct Hca as (filename' & f' & n & line & Hin & ? & ? & ? & ?).
        right. exists filename', f', n, line. split_and!; try done. by right.
    + intros [?|(filename' & f' & n & line & Hin & Hopen' & Hn & Hca & ->)];
        [by left; left|].
      apply elem_of_cons in Hin as [->|Hin].
      * left; right. exists n, line. rewrite Hopen in Hopen'.
        injection Hopen' as <-. by split_and!.
      * right. exists filename', f', n, line. by split_and!.
Qed.

(** The index of a store [NewDB] has built flags exactly the lines on
    which the test of [NewDB] succeeds. *)
Lemma NewDB_index files hkdb err :
  NewDB files = (Some hkdb, err) →
  only_true (isCert hkdb) ∧
  ∀ key, isCert hkdb !! key = Some true ↔ caLine files key.
Proof.
  unfold NewDB. destruct (xknownhosts_New files) as [cb e].
  destruct (not_nil e); [done|].
  destruct (readFiles files ∅) as [m|e'] eqn:Hread; [|done].
  intros [= <- _]. simpl.
  destruct (readFiles_index files ∅ m Hread) as [Htrue Hiff].
  { intros key v. by rewrite lookup_empty. }
  split; [done|]. intros key. rewrite Hiff, lookup_empty.
  split; [by intros [?|?]|by right].
Qed.

(** The index does not depend on the order of the files. *)
Lemma NewDB_index_order files files' hkdb hkdb' err err' :
  files' ≡ₚ files →
  NewDB files = (Some hkdb, err) → NewDB files' = (Some hkdb', err') →
  isCert hkdb' = isCert hkdb.
Proof.
  intros Hperm Hdb Hdb'.
  destruct (NewDB_index _ _ _ Hdb) as [Htrue Hiff].
  destruct (NewDB_index _ _ _ Hdb') as [Htrue' Hiff'].
  assert (∀ key, caLine files' key ↔ caLine files key) as Hca.
  { intros key. unfold caLine. by setoid_rewrite Hperm. }
  apply map_eq. intros key.
  destruct (isCert hkdb' !! key) as [v'|] eqn:Hv';
    destruct (isCert hkdb !! key) as [v|] eqn:Hv; try done.
  - by rewrite (Htrue _ _ Hv), (Htrue' _ _ Hv').
  - rewrite (Htrue' _ _ Hv') in Hv'. apply Hiff', Hca, Hiff in Hv'. congruence.
  - rewrite (Htrue _ _ Hv) in Hv. apply Hiff, Hca, Hiff' in Hv. congruence.
Qed.

End new_db.

(** ** The claims on [HostKeys] *)




(** C9, as the code has it: when the callback's result does not wrap a
    structured mismatch (silent success, or an error of any other kind),
    [HostKeyDB.HostKeys] returns the empty sequence, which is also what it
    returns for a host of which the matcher knows no key. *)
Theorem HostKeys_other_outcome_empty `{SliceSorter}
    (hkdb : HostKeyDB) (host : string) :
  errors_As (callback hkdb host placeholderAddr fakePublicKey) = None →
  HostKeyDB.HostKeys hkdb host = [] ∧
  (∀ hkdb',
     errors_As (callback hkdb' host placeholderAddr fakePublicKey)
       = Some {| xknownhosts.Want := [] |} →
     HostKeyDB.HostKeys hkdb' host = HostKeyDB.HostKeys hkdb host).
Proof.
  intros Hcb. rewrite (HostKeys_no_mismatch _ _ Hcb). split; [done|].
  intros hkdb' Hcb'. rewrite (HostKeys_mismatch _ _ _ Hcb'). simpl.
  by rewrite sort_Slice_nil.
Qed.

Lemma HostKeys_other_outcome_empty_witness :
  let hkdb := {| callback := sample.failing; isCert := sample.caLine7 |} in
  errors_As (callback hkdb "example.com:22" placeholderAddr fakePublicKey)
    = None ∧
  HostKeyDB.HostKeys hkdb "example.com:22" = [].
Proof.
  intros hkdb. split; [reflexivity|].
  refine (proj1 (HostKeys_other_outcome_empty hkdb "example.com:22" _)).
  reflexivity.
Defined.

(** C9, as stated, fails: a callback that fails with an error of another
    kind is answered with the empty key sequence, exactly as a host the
    matcher does not know. *)
Lemma HostKeys_swallows_other_errors :
  let other := {| callback := sample.failing; isCert := sample.caLine7 |} in
  let unknown := {| callback := sample.matcher []; isCert := sample.caLine7 |} in
  callback other "example.com:22" placeholderAddr fakePublicKey
    = errorString "knownhosts: i/o timeout" ∧
  callback unknown "example.com:22" placeholderAddr fakePublicKey
    = KeyErr {| xknownhosts.Want := [] |} ∧
  HostKeyDB.HostKeys other "example.com:22" = [] ∧
  HostKeyDB.HostKeys unknown "example.com:22" = [].
Proof. by vm_compute. Qed.

Section first_seen_facts.
Implicit Types seen l : list string.

Lemma first_seen_app seen l1 l2 :
  first_seen seen (l1 ++ l2)
  = first_seen seen l1 ++ first_seen (seen ++ first_seen seen l1) l2.
Proof.
  revert seen. induction l1 as [|a l1 IH]; intros seen; simpl.
  - by rewrite app_nil_r.
  - case_decide; [done|]. rewrite IH. simpl. by rewrite <-app_assoc.
Qed.

Lemma elem_of_first_seen seen l x :
  x ∈ first_seen seen l ↔ x ∈ l ∧ x ∉ seen.
Proof.
  revert seen. induction l as [|a l IH]; intros seen; simpl.
  - split; [by intros ?%elem_of_nil|by intros [?%elem_of_nil _]].
  - case_decide as Ha.
    + rewrite IH, elem_of_cons. split; [intros [? ?]; by auto|].
      intros [[->|?] Hx]; by auto.
    + rewrite elem_of_cons, IH. rewrite elem_of_cons, not_elem_of_app.
      rewrite list_elem_of_singleton.
      destruct (decide (x = a)) as [->|Hne]; [by split; auto|].
      split; [intros [?|(? & ? & _)]; by auto|].
      intros [[?|?] ?]; by auto.
Qed.

Lemma NoDup_first_seen seen l : NoDup (first_seen seen l).
Proof.
  revert seen. induction l as [|a l IH]; intros seen; simpl.
  - constructor.
  - case_decide; [done|]. constructor; [|done].
    rewrite elem_of_first_seen. intros [_ Hn]. apply Hn.
    apply elem_of_app. right. by left.
Qed.

Lemma first_seen_sublist seen l : first_seen seen l `sublist_of` l.
Proof.
  revert seen. induction l as [|a l IH]; intros seen; simpl; [done|].
  case_decide; [by apply sublist_cons|by apply sublist_skip].
Qed.

Lemma first_seen_absorbed seen l :
  (∀ x, x ∈ l → x ∈ seen) → first_seen seen l = [].
Proof.
  induction l as [|a l IH]; intros Hl; simpl; [done|].
  rewrite decide_True by (apply Hl; left). apply IH.
  intros x Hx. apply Hl. by right.
Qed.

End first_seen_facts.

(** ** The resolver computes the first-seen list *)

Section resolver.

Lemma addAlgo_first_seen typ cert st :
  tracks st →
  tracks (addAlgo typ cert st) ∧
  (addAlgo typ cert st).1 = st.1 ++ first_seen st.1 [substituted cert typ].
Proof.
  destruct st as [algos seen]. unfold tracks, addAlgo, substituted. simpl.
  intros Htr. set (a := if cert then _ else _).
  case_bool_decide as Hseen; case_decide as Halgos; simpl.
  - by rewrite app_nil_r.
  - by apply Htr in Hseen.
  - by apply Htr in Halgos.
  - split; [|done]. intros x.
    rewrite elem_of_union, elem_of_singleton, elem_of_app, list_elem_of_singleton.
    rewrite Htr. tauto.
Qed.

Lemma addKey_first_seen st key :
  tracks st →
  tracks (addKey st key) ∧
  (addKey st key).1 = st.1 ++ first_seen st.1 (offered key).
Proof.
  intros Htr. unfold addKey, offered.
  destruct (String.eqb _ ssh.KeyAlgoRSA).
  - destruct (addAlgo_first_seen ssh.KeyAlgoRSASHA512 (Cert key) st Htr)
      as [Htr1 E1].
    destruct (addAlgo_first_seen ssh.KeyAlgoRSASHA256 (Cert key) _ Htr1)
      as [Htr2 E2].
    destruct (addAlgo_first_seen (ssh.Type' (PublicKey_ key)) (Cert key) _ Htr2)
      as [Htr3 E3].
    split; [done|]. rewrite E3, E2, E1. simpl fmap.
    change (?a :: ?b :: ?c :: []) with ([a] ++ [b] ++ [c]).
    by rewrite !first_seen_app, <-!app_assoc.
  - by apply addAlgo_first_seen.
Qed.

Lemma foldl_addKey_first_seen keys st :
  tracks st →
  (foldl addKey st keys).1 = st.1 ++ first_seen st.1 (keys ≫= offered).
Proof.
  revert st. induction keys as [|key keys IH]; intros st Htr; simpl.
  - by rewrite app_nil_r.
  - destruct (addKey_first_seen st key Htr) as [Htr' E].
    rewrite (IH _ Htr'), E, first_seen_app. by rewrite <-app_assoc.
Qed.

Context `{SliceSorter}.

Lemma HostKeyAlgorithms_first_seen hkdb host :
  HostKeyDB.HostKeyAlgorithms hkdb host
  = first_seen [] (HostKeyDB.HostKeys hkdb host ≫= offered).
Proof.
  unfold HostKeyDB.HostKeyAlgorithms.
  rewrite foldl_addKey_first_seen; [done|]. intros x. simpl.
  split; [by intros ?%elem_of_empty|by intros ?%elem_of_nil].
Qed.

End resolver.

(** ** The claims on [HostKeyAlgorithms] *)

Section flags.

(** A position the CA index holds as true is flagged. *)
Lemma flagged_true hkdb kkey :
  isCert hkdb !! mapKey (xknownhosts.Filename kkey) (xknownhosts.Line kkey)
    = Some true →
  Cert (flagged hkdb kkey) = true.
Proof.
  intros Hidx. unfold flagged. simpl. rewrite Hidx. simpl.
  rewrite bool_decide_eq_true_2; [done|].
  assert (size (isCert hkdb) ≠ 0%nat); [|lia].
  by eapply map_size_ne_0_lookup_2.
Qed.

(** With an empty CA index no key is flagged. *)
Lemma flagged_empty hkdb kkey :
  isCert hkdb = ∅ → Cert (flagged hkdb kkey) = false.
Proof. intros Hidx. unfold flagged. simpl. by rewrite Hidx. Qed.

Lemma keyTypeToCertAlgo_unmapped keyType :
  keyType ∉ mappedKeyTypes → keyTypeToCertAlgo keyType = "".
Proof.
  unfold mappedKeyTypes, keyTypeToCertAlgo. intros Hno.
  repeat match goal with
    | |- context [String.eqb keyType ?k] =>
        destruct (String.eqb_spec keyType k) as [->|_];
        [exfalso; apply Hno; repeat constructor|]
    end.
  done.
Qed.

Lemma filter_eq_absent (l : list string) a :
  a ∉ l → filter (a =.) l = [].
Proof.
  induction l as [|x l IH]; [done|]. intros [Hx Hl]%not_elem_of_cons.
  rewrite filter_cons, decide_False by done. by apply IH.
Qed.

Lemma filter_eq_NoDup (l : list string) a :
  NoDup l → a ∈ l → length (filter (a =.) l) = 1%nat.
Proof.
  induction 1 as [|x l Hx Hl IH]; [by intros ?%elem_of_nil|].
  rewrite filter_cons. intros [->|Ha]%elem_of_cons.
  - rewrite decide_True by done. simpl. by rewrite filter_eq_absent.
  - rewrite decide_False by (by intros ->). by apply IH.
Qed.

(** Every identifier a known key offers is part of the result. *)
Lemma offered_in_result `{SliceSorter} hkdb host key a :
  key ∈ HostKeyDB.HostKeys hkdb host → a ∈ offered key →
  a ∈ HostKeyDB.HostKeyAlgorithms hkdb host.
Proof.
  intros Hkey Ha. rewrite HostKeyAlgorithms_first_seen, elem_of_first_seen.
  split; [|by intros ?%elem_of_nil].
  apply list_elem_of_bind. by exists key.
Qed.

(** The last identifier a key offers is the one for its own type. *)
Lemma own_type_offered key :
  substituted (Cert key) (ssh.Type' (PublicKey_ key)) ∈ offered key.
Proof.
  unfold offered. rewrite fmap_app, elem_of_app. right.
  by apply list_elem_of_singleton.
Qed.

End flags.

(** C1: a host of which the store knows exactly one key, of the generic RSA
    type and not flagged as CA, gets [rsa-sha2-512, rsa-sha2-256, ssh-rsa],
    in this order. *)
Theorem HostKeyAlgorithms_single_rsa `{SliceSorter}
    (hkdb : HostKeyDB) (host : string)
    (keyErr : xknownhosts.KeyError) (kkey : xknownhosts.KnownKey) :
  errors_As (callback hkdb host placeholderAddr fakePublicKey) = Some keyErr →
  xknownhosts.Want keyErr = [kkey] →
  ssh.Type' (xknownhosts.Key kkey) = ssh.KeyAlgoRSA →
  Cert (flagged hkdb kkey) = false →
  HostKeyDB.HostKeyAlgorithms hkdb host
  = [ssh.KeyAlgoRSASHA512; ssh.KeyAlgoRSASHA256; ssh.KeyAlgoRSA].
Proof.
  intros Hcb Hwant Htyp Hcert.
  rewrite HostKeyAlgorithms_first_seen, (HostKeys_mismatch _ _ _ Hcb).
  rewrite Hwant, sort_Slice_singleton. simpl. rewrite app_nil_r.
  unfold offered. rewrite Hcert. simpl PublicKey_. rewrite Htyp.
  by vm_compute.
Qed.

Lemma HostKeyAlgorithms_single_rsa_witness :
  let kkey := {| xknownhosts.Key := sample.rsaKey;
                 xknownhosts.Filename := "a/known_hosts";
                 xknownhosts.Line := 2 |} in
  let hkdb := {| callback := sample.matcher [kkey];
                 isCert := sample.caLine7 |} in
  Cert (flagged hkdb kkey) = false ∧
  HostKeyDB.HostKeyAlgorithms hkdb "example.com:22"
  = ["rsa-sha2-512"; "rsa-sha2-256"; "ssh-rsa"].
Proof.
  intros kkey hkdb. split; [reflexivity|].
  exact (HostKeyAlgorithms_single_rsa hkdb "example.com:22"
           {| xknownhosts.Want := [kkey] |} kkey
           eq_refl eq_refl eq_refl eq_refl).
Defined.

(** C2: a host whose only known key stands on an [@cert-authority] line
    and is an ed25519 key gets the one-element list of the ed25519
    certificate algorithm; and for every key flagged as CA the identifiers
    offered are certificate-algorithm substitutions, that of the key's own
    type being part of the result.  The CA index of a store built by
    [NewDB] holds the position of every line that passes its
    [@cert-authority] test. *)
Theorem HostKeyAlgorithms_cert_authority `{SliceSorter} {platform : Platform}
    (hkdb : HostKeyDB) (host : string) :
  (∀ keyErr kkey,
     errors_As (callback hkdb host placeholderAddr fakePublicKey)
       = Some keyErr →
     xknownhosts.Want keyErr = [kkey] →
     ssh.Type' (xknownhosts.Key kkey) = ssh.KeyAlgoED25519 →
     isCert hkdb !! mapKey (xknownhosts.Filename kkey) (xknownhosts.Line kkey)
       = Some true →
     HostKeyDB.HostKeyAlgorithms hkdb host = [ssh.CertAlgoED25519v01]) ∧
  (∀ key,
     key ∈ HostKeyDB.HostKeys hkdb host → Cert key = true →
     keyTypeToCertAlgo (ssh.Type' (PublicKey_ key))
       ∈ HostKeyDB.HostKeyAlgorithms hkdb host ∧
     ∀ a, a ∈ offered key → ∃ typ, a = keyTypeToCertAlgo typ) ∧
  (∀ typ algos seen,
     addAlgo typ true (algos, seen)
     = if bool_decide (keyTypeToCertAlgo typ ∈ seen) then (algos, seen)
       else (algos ++ [keyTypeToCertAlgo typ], {[keyTypeToCertAlgo typ]} ∪ seen)) ∧
  (∀ files err filename f (n : nat) line,
     NewDB files = (Some hkdb, err) →
     filename ∈ files → os_Open filename = inl f →
     tokens f !! n = Some line → isCertLine line = true →
     isCert hkdb !! mapKey filename (Z.of_nat n + 1) = Some true).
Proof.
  split_and!.
  - intros keyErr kkey Hcb Hwant Htyp Hidx.
    rewrite HostKeyAlgorithms_first_seen, (HostKeys_mismatch _ _ _ Hcb).
    rewrite Hwant, sort_Slice_singleton. simpl. rewrite app_nil_r.
    unfold offered. rewrite (flagged_true _ _ Hidx). simpl PublicKey_.
    rewrite Htyp. by vm_compute.
  - intros key Hkey Hcert. split.
    + apply (offered_in_result _ _ key); [done|].
      pose proof (own_type_offered key) as Hown. by rewrite Hcert in Hown.
    + intros a. unfold offered. rewrite Hcert.
      intros (typ & -> & _)%list_elem_of_fmap. by exists typ.
  - done.
  - intros files err filename f n line Hdb Hin Hopen Hn Hca.
    apply (NewDB_index _ _ _ Hdb). by exists filename, f, n, line.
Qed.

Lemma HostKeyAlgorithms_cert_authority_witness :
  let kkey := {| xknownhosts.Key := sample.ed25519Key;
                 xknownhosts.Filename := "a/known_hosts";
                 xknownhosts.Line := 7 |} in
  let hkdb := {| callback := sample.matcher [kkey];
                 isCert := sample.caLine7 |} in
  isCert hkdb !! mapKey "a/known_hosts" 7 = Some true ∧
  HostKeyDB.HostKeyAlgorithms hkdb "example.com:22"
  = ["ssh-ed25519-cert-v01@openssh.com"].
Proof.
  intros kkey hkdb. split; [reflexivity|].
  exact (proj1 (HostKeyAlgorithms_cert_authority (platform:=sample.platform)
                  hkdb "example.com:22")
           {| xknownhosts.Want := [kkey] |} kkey
           eq_refl eq_refl eq_refl eq_refl).
Defined.

(** C3: for a key flagged as CA whose type the substitution table does not
    list, the substitution is the empty string, and the empty string is an
    element of the list [HostKeyAlgorithms] returns. *)
Theorem HostKeyAlgorithms_unmapped_ca_type `{SliceSorter}
    (hkdb : HostKeyDB) (host : string) (key : PublicKey) :
  key ∈ HostKeyDB.HostKeys hkdb host →
  Cert key = true →
  ssh.Type' (PublicKey_ key) ∉ mappedKeyTypes →
  keyTypeToCertAlgo (ssh.Type' (PublicKey_ key)) = "" ∧
  "" ∈ HostKeyDB.HostKeyAlgorithms hkdb host.
Proof.
  intros Hkey Hcert Htyp.
  pose proof (keyTypeToCertAlgo_unmapped _ Htyp) as Hempty.
  split; [done|]. rewrite <-Hempty.
  apply (offered_in_result _ _ key); [done|].
  pose proof (own_type_offered key) as Hown. by rewrite Hcert in Hown.
Qed.

Lemma HostKeyAlgorithms_unmapped_ca_type_witness :
  let kkey := {| xknownhosts.Key := sample.ed25519Cert;
                 xknownhosts.Filename := "a/known_hosts";
                 xknownhosts.Line := 7 |} in
  let hkdb := {| callback := sample.matcher [kkey];
                 isCert := sample.caLine7 |} in
  let key := {| PublicKey_ := sample.ed25519Cert; Cert := true |} in
  HostKeyDB.HostKeys hkdb "example.com:22" = [key] ∧
  HostKeyDB.HostKeyAlgorithms hkdb "example.com:22" = [""] ∧
  keyTypeToCertAlgo "ssh-ed25519-cert-v01@openssh.com" = "" ∧
  "" ∈ HostKeyDB.HostKeyAlgorithms hkdb "example.com:22".
Proof.
  intros kkey hkdb key. split; [reflexivity|]. split; [reflexivity|].
  refine (HostKeyAlgorithms_unmapped_ca_type hkdb "example.com:22" key _ _ _).
  - apply list_elem_of_here.
  - reflexivity.
  - apply (bool_decide_unpack _). by vm_compute.
Defined.

(** C4: the list [HostKeyAlgorithms] returns has no duplicates; it is the
    sequence of the identifiers the host's known keys offer, after CA
    substitution, each kept where it is first seen; so every identifier
    offered occurs in it exactly once, also when two known keys have the
    same type. *)
Theorem HostKeyAlgorithms_no_duplicates `{SliceSorter}
    (hkdb : HostKeyDB) (host : string) :
  let algos := HostKeyDB.HostKeyAlgorithms hkdb host in
  let emitted := HostKeyDB.HostKeys hkdb host ≫= offered in
  NoDup algos ∧
  algos = first_seen [] emitted ∧
  algos `sublist_of` emitted ∧
  (∀ a, a ∈ emitted → length (filter (a =.) algos) = 1%nat) ∧
  (∀ keyErr k1 k2,
     errors_As (callback hkdb host placeholderAddr fakePublicKey)
       = Some keyErr →
     xknownhosts.Want keyErr = [k1; k2] →
     ssh.Type' (xknownhosts.Key k1) = ssh.Type' (xknownhosts.Key k2) →
     Cert (flagged hkdb k1) = Cert (flagged hkdb k2) →
     algos = first_seen [] (offered (flagged hkdb k1))).
Proof.
  intros algos emitted.
  assert (algos = first_seen [] emitted) as Halgos
    by apply HostKeyAlgorithms_first_seen.
  split_and!.
  - rewrite Halgos. apply NoDup_first_seen.
  - done.
  - rewrite Halgos. apply first_seen_sublist.
  - intros a Ha. apply filter_eq_NoDup.
    + rewrite Halgos. apply NoDup_first_seen.
    + rewrite Halgos, elem_of_first_seen. split; [done|by intros ?%elem_of_nil].
  - intros keyErr k1 k2 Hcb Hwant Htyp Hcert. rewrite Halgos. unfold emitted.
    rewrite (HostKeys_mismatch _ _ _ Hcb), Hwant.
    assert (offered (flagged hkdb k2) = offered (flagged hkdb k1)) as Hsame.
    { unfold offered. rewrite <-Hcert.
      change (PublicKey_ (flagged hkdb ?k)) with (xknownhosts.Key k).
      by rewrite Htyp. }
    assert (sort_Slice knownKeyLess [k1; k2] ≫= offered ∘ flagged hkdb
            = offered (flagged hkdb k1) ++ offered (flagged hkdb k1)) as Hem.
    { pose proof (sort_Slice_perm knownKeyLess [k1; k2]) as Hp.
      symmetry in Hp. apply Permutation_length_2_inv in Hp as [-> | ->];
        simpl; rewrite app_nil_r, ?Hsame; done. }
    rewrite list_fmap_bind, Hem, first_seen_app, app_nil_l.
    rewrite (first_seen_absorbed (first_seen [] _)); [by rewrite app_nil_r|].
    intros x Hx. rewrite elem_of_first_seen. split; [done|by intros ?%elem_of_nil].
Qed.

Lemma HostKeyAlgorithms_no_duplicates_witness :
  let k1 := {| xknownhosts.Key := sample.rsaKey;
               xknownhosts.Filename := "b/known_hosts";
               xknownhosts.Line := 4 |} in
  let k2 := {| xknownhosts.Key := sample.rsaKey2;
               xknownhosts.Filename := "a/known_hosts";
               xknownhosts.Line := 9 |} in
  let hkdb := {| callback := sample.matcher [k1; k2];
                 isCert := sample.caLine7 |} in
  HostKeyDB.HostKeyAlgorithms hkdb "example.com:22"
  = first_seen [] (offered (flagged hkdb k1)) ∧
  HostKeyDB.HostKeyAlgorithms hkdb "example.com:22"
  = ["rsa-sha2-512"; "rsa-sha2-256"; "ssh-rsa"].
Proof.
  intros k1 k2 hkdb. split; [|reflexivity].
  exact (proj2 (proj2 (proj2 (proj2
           (HostKeyAlgorithms_no_duplicates hkdb "example.com:22"))))
           {| xknownhosts.Want := [k1; k2] |} k1 k2
           eq_refl eq_refl eq_refl eq_refl).
Defined.

(** ** The variant without the CA index *)

Section variant.
Context `{SliceSorter}.

Lemma HostKeys_any_index hkcb isC host :
  PublicKey_ <$> HostKeyDB.HostKeys {| callback := hkcb; isCert := isC |} host
  = HostKeyCallback.HostKeys hkcb host.
Proof.
  unfold HostKeyCallback.HostKeys, HostKeyDB.HostKeys. simpl.
  destruct (errors_As _); [|done]. by rewrite <-!list_fmap_compose.
Qed.

Lemma HostKeys_empty_index_unflagged hkcb host key :
  key ∈ HostKeyDB.HostKeys {| callback := hkcb; isCert := ∅ |} host →
  Cert key = false.
Proof.
  unfold HostKeyDB.HostKeys. simpl. destruct (errors_As _).
  - by intros (kkey & -> & _)%list_elem_of_fmap.
  - by intros ?%elem_of_nil.
Qed.

(** Without a CA index every identifier returned is the type of a known
    key or, for a key of the generic RSA type, one of the two SHA-2
    signature algorithms. *)
Lemma variant_algorithms_origin hkcb host a :
  a ∈ HostKeyCallback.HostKeyAlgorithms hkcb host →
  ∃ key, key ∈ HostKeyCallback.HostKeys hkcb host ∧
    (a = ssh.Type' key ∨
     (ssh.Type' key = ssh.KeyAlgoRSA ∧
      (a = ssh.KeyAlgoRSASHA512 ∨ a = ssh.KeyAlgoRSASHA256))).
Proof.
  unfold HostKeyCallback.HostKeyAlgorithms, HostKeyCallback.HostKeys.
  rewrite HostKeyAlgorithms_first_seen, elem_of_first_seen.
  intros [(key & Ha & Hkey)%list_elem_of_bind _].
  exists (PublicKey_ key). split; [by apply list_elem_of_fmap_2|].
  unfold offered in Ha.
  rewrite (HostKeys_empty_index_unflagged _ _ _ Hkey) in Ha.
  unfold substituted in Ha. rewrite list_fmap_id in Ha.
  apply elem_of_app in Ha as [Ha|Ha%list_elem_of_singleton]; [|by left].
  right. destruct (String.eqb_spec (ssh.Type' (PublicKey_ key)) ssh.KeyAlgoRSA);
    [|by apply elem_of_nil in Ha].
  split; [done|].
  apply elem_of_cons in Ha as [->|Ha%list_elem_of_singleton]; by auto.
Qed.

End variant.

(** The variant without the CA index: [HostKeyCallback.HostKeyAlgorithms] is
    [HostKeyDB.HostKeyAlgorithms] for the same callback and an empty CA
    index; [HostKeyCallback.HostKeys] gives the keys of
    [HostKeyDB.HostKeys], in the same order, whatever the CA index, and
    with the empty index every flag is false.  No certificate-algorithm
    substitution is applied: each identifier returned is the type of a
    known key or, for an ssh-rsa key, one of the two RSA SHA-2 algorithms;
    so no certificate algorithm is returned unless it is itself the type
    of a known key. *)
Theorem HostKeyCallback_variant `{SliceSorter}
    (hkcb : HostKeyCallback) (host : string) :
  let hkdb := {| callback := hkcb; isCert := ∅ |} in
  HostKeyCallback.HostKeyAlgorithms hkcb host
    = HostKeyDB.HostKeyAlgorithms hkdb host ∧
  HostKeyCallback.HostKeys hkcb host
    = PublicKey_ <$> HostKeyDB.HostKeys hkdb host ∧
  (∀ key, key ∈ HostKeyDB.HostKeys hkdb host → Cert key = false) ∧
  (∀ isC,
     PublicKey_ <$> HostKeyDB.HostKeys {| callback := hkcb; isCert := isC |} host
     = HostKeyCallback.HostKeys hkcb host) ∧
  (∀ a, a ∈ HostKeyCallback.HostKeyAlgorithms hkcb host →
     ∃ key, key ∈ HostKeyCallback.HostKeys hkcb host ∧
       (a = ssh.Type' key ∨
        (ssh.Type' key = ssh.KeyAlgoRSA ∧
         (a = ssh.KeyAlgoRSASHA512 ∨ a = ssh.KeyAlgoRSASHA256)))) ∧
  ((∀ key, key ∈ HostKeyCallback.HostKeys hkcb host →
      ssh.Type' key ∉ ssh.CertAlgos) →
   ∀ a, a ∈ HostKeyCallback.HostKeyAlgorithms hkcb host →
        a ∉ ssh.CertAlgos).
Proof.
  intros hkdb. split_and!; [done|done|..].
  - apply HostKeys_empty_index_unflagged.
  - intros isC. apply HostKeys_any_index.
  - apply variant_algorithms_origin.
  - intros Hplain a Ha.
    apply variant_algorithms_origin in Ha as (key & Hkey & [->|[_ [->| ->]]]).
    + by apply Hplain.
    + apply (bool_decide_unpack _). by vm_compute.
    + apply (bool_decide_unpack _). by vm_compute.
Qed.

Lemma HostKeyCallback_variant_witness :
  let hkcb := sample.matcher sample.threeKeys in
  HostKeyCallback.HostKeys hkcb "example.com:22"
    = [sample.ecdsaKey; sample.rsaKey; sample.ed25519Key] ∧
  HostKeyCallback.HostKeyAlgorithms hkcb "example.com:22"
    = ["ecdsa-sha2-nistp256"; "rsa-sha2-512"; "rsa-sha2-256"; "ssh-rsa";
       "ssh-ed25519"] ∧
  ∀ a, a ∈ HostKeyCallback.HostKeyAlgorithms hkcb "example.com:22" →
       a ∉ ssh.CertAlgos.
Proof.
  intros hkcb. split; [reflexivity|]. split; [reflexivity|].
  refine (proj2 (proj2 (proj2 (proj2 (proj2
           (HostKeyCallback_variant hkcb "example.com:22"))))) _).
  intros key Hkey. apply (bool_decide_unpack _).
  vm_compute in Hkey.
  repeat (apply elem_of_cons in Hkey as [->|Hkey]; [by vm_compute|]).
  by apply elem_of_nil in Hkey.
Defined.

(** C10: the variant is the store with an empty CA index, but it does
    return a certificate algorithm: when a known key of the host is
    itself a certificate, its type is a certificate-algorithm identifier
    and [HostKeyCallback.HostKeyAlgorithms] and the package-level
    [HostKeyAlgorithms] return it, although their documentation says that
    the returned values will not include [ssh.CertAlgo*] values. *)
Lemma HostKeyCallback_returns_cert_type :
  let kkey := {| xknownhosts.Key := sample.ed25519Cert;
                 xknownhosts.Filename := "a/known_hosts";
                 xknownhosts.Line := 2 |} in
  let hkcb := sample.matcher [kkey] in
  HostKeyCallback.HostKeys hkcb "example.com:22" = [sample.ed25519Cert] ∧
  HostKeyCallback.HostKeyAlgorithms hkcb "example.com:22"
    = [ssh.CertAlgoED25519v01] ∧
  HostKeyAlgorithms hkcb "example.com:22" = [ssh.CertAlgoED25519v01] ∧
  HostKeyCallback.HostKeyAlgorithms hkcb "example.com:22"
    = HostKeyDB.HostKeyAlgorithms {| callback := hkcb; isCert := ∅ |}
        "example.com:22" ∧
  ssh.CertAlgoED25519v01 ∈ ssh.CertAlgos ∧
  ¬ (∀ a, a ∈ HostKeyCallback.HostKeyAlgorithms hkcb "example.com:22" →
          a ∉ ssh.CertAlgos).
Proof.
  intros kkey hkcb.
  assert (ssh.CertAlgoED25519v01 ∈ ssh.CertAlgos) as Hcert
    by (apply (bool_decide_unpack _); by vm_compute).
  split; [reflexivity|]. split; [reflexivity|]. split; [reflexivity|].
  split; [reflexivity|]. split; [done|].
  intros Hnever. apply (Hnever ssh.CertAlgoED25519v01); [|done].
  apply list_elem_of_here.
Qed.

(** ** Errors and what they wrap *)

Section error_induction.
Variable P : error → Prop.
Hypothesis Hnil : P ErrNil.
Hypothesis Hkey : ∀ keyErr, P (KeyErr keyErr).
Hypothesis Hrev : ∀ revErr, P (RevokedErr revErr).
Hypothesis Haddr : ∀ Err Addr, P (AddrErr Err Addr).
Hypothesis Hstr : ∀ s, P (errorString s).
Hypothesis Hwrap : ∀ msg err, P err → P (wrapError msg err).
Hypothesis Hjoin : ∀ errs, Forall P errs → P (joinError errs).

Fixpoint error_nested_ind (err : error) : P err :=
  match err with
  | ErrNil => Hnil
  | KeyErr keyErr => Hkey keyErr
  | RevokedErr revErr => Hrev revErr
  | AddrErr Err Addr => Haddr Err Addr
  | errorString s => Hstr s
  | wrapError msg err' => Hwrap msg err' (error_nested_ind err')
  | joinError errs =>
      Hjoin errs
        ((fix all (errs : list error) : Forall P errs :=
            match errs with
            | [] => List.Forall_nil P
            | err' :: errs' =>
                List.Forall_cons P err' errs' (error_nested_ind err') (all errs')
            end) errs)
  end.
End error_induction.

Section errors_As_facts.
Implicit Types (err : error) (keyErr : xknownhosts.KeyError).

Lemma errors_As_join_cons err errs :
  errors_As (joinError (err :: errs))
  = match errors_As err with
    | Some keyErr => Some keyErr
    | None => errors_As (joinError errs)
    end.
Proof. done. Qed.

Lemma errors_As_wraps err keyErr :
  errors_As err = Some keyErr → Wraps err keyErr.
Proof.
  revert keyErr. induction err as [|k0| | | | msg err IH | errs IH]
    using error_nested_ind; intros keyErr Has; try done.
  - injection Has as ->. constructor.
  - constructor. by apply IH.
  - induction IH as [|err errs IHerr _ IHerrs]; [done|].
    rewrite errors_As_join_cons in Has.
    destruct (errors_As err) as [k|] eqn:Herr.
    + injection Has as ->. apply (Wraps_join _ err); [by left|by apply IHerr].
    + specialize (IHerrs Has). inversion IHerrs as [| |? err' ? Hin Hw]; subst.
      apply (Wraps_join _ err'); [by right|done].
Qed.

Lemma wraps_errors_As err keyErr :
  Wraps err keyErr → is_Some (errors_As err).
Proof.
  induction 1 as [|msg err keyErr _ IH|errs err keyErr Hin _ IH];
    [simpl; eauto|exact IH|].
  induction Hin as [err errs|err err' errs _ IHin];
    rewrite errors_As_join_cons.
  - destruct IH as [k ->]. by eexists.
  - destruct (errors_As err'); [by eexists|auto].
Qed.

Lemma chain_wraps_errors_As err keyErr :
  chain err = true → Wraps err keyErr → errors_As err = Some keyErr.
Proof.
  intros Hchain Hw. induction Hw as [|msg err keyErr _ IH|]; [done| |done].
  simpl in *. by apply IH.
Qed.

Lemma errors_As_join_skip pre errs :
  (∀ err, err ∈ pre → errors_As err = None) →
  errors_As (joinError (pre ++ errs)) = errors_As (joinError errs).
Proof.
  induction pre as [|err pre IH]; intros Hpre; [done|].
  change ((err :: pre) ++ errs) with (err :: (pre ++ errs)).
  rewrite errors_As_join_cons, (Hpre err) by left.
  apply IH. intros err' Hin. apply Hpre. by right.
Qed.

Lemma errors_As_join_inv errs keyErr :
  errors_As (joinError errs) = Some keyErr →
  ∃ pre err post,
    errs = pre ++ err :: post ∧
    (∀ err', err' ∈ pre → errors_As err' = None) ∧
    errors_As err = Some keyErr.
Proof.
  induction errs as [|err errs IH]; [done|]. rewrite errors_As_join_cons.
  destruct (errors_As err) as [k|] eqn:Herr.
  - intros [= ->]. exists [], err, errs.
    split; [done|]. split; [|done]. by intros ? ?%elem_of_nil.
  - intros (pre & err0 & post & -> & Hpre & Herr0)%IH.
    exists (err :: pre), err0, post. split; [done|]. split; [|done].
    intros err' [->|Hin]%elem_of_cons; [done|by apply Hpre].
Qed.

(** What [errors.As] finds is the first structured mismatch. *)
Lemma errors_As_first err keyErr :
  errors_As err = Some keyErr ↔ FirstWrapped err keyErr.
Proof.
  split.
  - revert keyErr. induction err as [|k0| | | | msg err IH | errs IH]
      using error_nested_ind; intros keyErr Has; try done.
    + injection Has as ->. constructor.
    + constructor. by apply IH.
    + apply errors_As_join_inv in Has as (pre & err & post & -> & Hpre & Herr).
      constructor.
      * intros err' keyErr' Hin [k Hk]%wraps_errors_As.
        rewrite (Hpre _ Hin) in Hk. done.
      * apply Forall_app in IH as [_ IH]. apply Forall_cons in IH as [IH _].
        by apply IH.
  - induction 1 as [k|msg err k _ IH|pre err post k Hpre _ IH];
      [done|exact IH|].
    rewrite errors_As_join_skip, errors_As_join_cons, IH; [done|].
    intros err' Hin. destruct (errors_As err') as [k'|] eqn:Has; [|done].
    apply errors_As_wraps in Has. by destruct (Hpre _ _ Hin Has).
Qed.

Lemma chain_wraps_unique err keyErr keyErr' :
  chain err = true → Wraps err keyErr → Wraps err keyErr' → keyErr = keyErr'.
Proof.
  intros Hchain Hw Hw'.
  apply (chain_wraps_errors_As _ _ Hchain) in Hw, Hw'. congruence.
Qed.

End errors_As_facts.

(** C6, as the code has it: [IsHostKeyChanged] holds exactly when the
    first structured mismatch of [err], the one [errors.As] finds, has
    known keys, and [IsHostUnknown] exactly when it has none; the two
    never hold together.  So [IsHostKeyChanged] implies that [err] wraps
    a mismatch with known keys and [IsHostUnknown] that it wraps one
    without, and one of the two holds whenever [err] wraps a mismatch.
    The converses hold when the mismatches [err] wraps agree on having
    known keys or not, as they do in a chain of errors, which wraps at
    most one. *)
Theorem IsHostKeyChanged_IsHostUnknown (err : error) :
  (IsHostKeyChanged err = true ↔
     ∃ keyErr, FirstWrapped err keyErr ∧ xknownhosts.Want keyErr ≠ []) ∧
  (IsHostUnknown err = true ↔
     ∃ keyErr, FirstWrapped err keyErr ∧ xknownhosts.Want keyErr = []) ∧
  ¬ (IsHostKeyChanged err = true ∧ IsHostUnknown err = true) ∧
  (IsHostKeyChanged err = true →
     ∃ keyErr, Wraps err keyErr ∧ xknownhosts.Want keyErr ≠ []) ∧
  (IsHostUnknown err = true →
     ∃ keyErr, Wraps err keyErr ∧ xknownhosts.Want keyErr = []) ∧
  ((∃ keyErr, Wraps err keyErr) →
     IsHostKeyChanged err = true ∨ IsHostUnknown err = true) ∧
  ((∀ keyErr keyErr', Wraps err keyErr → Wraps err keyErr' →
      (xknownhosts.Want keyErr = [] ↔ xknownhosts.Want keyErr' = [])) →
     (IsHostKeyChanged err = true ↔
        ∃ keyErr, Wraps err keyErr ∧ xknownhosts.Want keyErr ≠ []) ∧
     (IsHostUnknown err = true ↔
        ∃ keyErr, Wraps err keyErr ∧ xknownhosts.Want keyErr = [])) ∧
  (chain err = true →
     (∀ keyErr keyErr', Wraps err keyErr → Wraps err keyErr' →
        keyErr = keyErr') ∧
     (IsHostKeyChanged err = true ↔
        ∃ keyErr, Wraps err keyErr ∧ xknownhosts.Want keyErr ≠ []) ∧
     (IsHostUnknown err = true ↔
        ∃ keyErr, Wraps err keyErr ∧ xknownhosts.Want keyErr = [])).
Proof.
  assert (Hchanged : IsHostKeyChanged err = true ↔
     ∃ keyErr, errors_As err = Some keyErr ∧ xknownhosts.Want keyErr ≠ []).
  { unfold IsHostKeyChanged. destruct (errors_As err) as [k|];
      [|by split; [|intros (? & ? & _)]].
    rewrite bool_decide_eq_true. split.
    - intros Hlen. exists k. split; [done|]. intros Hw. rewrite Hw in Hlen.
      simpl in Hlen. lia.
    - intros (k' & [= <-] & Hw). destruct (xknownhosts.Want k); [done|].
      simpl. lia. }
  assert (Hunknown : IsHostUnknown err = true ↔
     ∃ keyErr, errors_As err = Some keyErr ∧ xknownhosts.Want keyErr = []).
  { unfold IsHostUnknown. destruct (errors_As err) as [k|];
      [|by split; [|intros (? & ? & _)]].
    rewrite bool_decide_eq_true. split.
    - intros Hlen. exists k. split; [done|].
      destruct (xknownhosts.Want k); [done|]. simpl in Hlen. lia.
    - intros (k' & [= <-] & ->). done. }
  assert (Hagree :
    (∀ keyErr keyErr', Wraps err keyErr → Wraps err keyErr' →
       (xknownhosts.Want keyErr = [] ↔ xknownhosts.Want keyErr' = [])) →
    (IsHostKeyChanged err = true ↔
       ∃ keyErr, Wraps err keyErr ∧ xknownhosts.Want keyErr ≠ []) ∧
    (IsHostUnknown err = true ↔
       ∃ keyErr, Wraps err keyErr ∧ xknownhosts.Want keyErr = [])).
  { intros Hsame. rewrite Hchanged, Hunknown. split; split.
    - intros (k & Hk%errors_As_wraps & Hw). by exists k.
    - intros (k & Hk & Hw). destruct (wraps_errors_As _ _ Hk) as [k' Hk'].
      exists k'. split; [done|]. intros Hw'. apply Hw.
      by apply (Hsame k' k); [apply errors_As_wraps| |].
    - intros (k & Hk%errors_As_wraps & Hw). by exists k.
    - intros (k & Hk & Hw). destruct (wraps_errors_As _ _ Hk) as [k' Hk'].
      exists k'. split; [done|].
      by apply (Hsame k k'); [|apply errors_As_wraps|]. }
  split_and!.
  - rewrite Hchanged. by setoid_rewrite errors_As_first.
  - rewrite Hunknown. by setoid_rewrite errors_As_first.
  - rewrite Hchanged, Hunknown. intros [(k & Hk & Hne) (k' & Hk' & He)].
    congruence.
  - rewrite Hchanged. intros (k & Hk%errors_As_wraps & Hw). by exists k.
  - rewrite Hunknown. intros (k & Hk%errors_As_wraps & Hw). by exists k.
  - intros [keyErr [k Hk]%wraps_errors_As].
    destruct (xknownhosts.Want k) eqn:Hw.
    + right. apply Hunknown. by exists k.
    + left. apply Hchanged. exists k. split; [done|]. by rewrite Hw.
  - exact Hagree.
  - intros Hchain.
    assert (∀ keyErr keyErr', Wraps err keyErr → Wraps err keyErr' →
              keyErr = keyErr') as Hone
      by (intros k k'; by apply chain_wraps_unique).
    split; [done|]. apply Hagree. intros k k' Hk Hk'.
    by rewrite (Hone k k').
Qed.

(** C6, as stated, fails: an error that joins a mismatch without known
    keys and one with known keys wraps a mismatch with known keys, yet
    [IsHostKeyChanged] is false of it and [IsHostUnknown] true, since
    [errors.As] stops at the first. *)
Lemma IsHostKeyChanged_misses_joined_mismatch :
  IsHostKeyChanged
    (joinError
       [ KeyErr {| xknownhosts.Want := [] |};
         KeyErr {| xknownhosts.Want :=
           [ {| xknownhosts.Key := sample.rsaKey;
                xknownhosts.Filename := "a/known_hosts";
                xknownhosts.Line := 7 |} ] |} ]) = false ∧
  IsHostUnknown
    (joinError
       [ KeyErr {| xknownhosts.Want := [] |};
         KeyErr {| xknownhosts.Want :=
           [ {| xknownhosts.Key := sample.rsaKey;
                xknownhosts.Filename := "a/known_hosts";
                xknownhosts.Line := 7 |} ] |} ]) = true ∧
  (∃ keyErr,
     Wraps
       (joinError
          [ KeyErr {| xknownhosts.Want := [] |};
            KeyErr {| xknownhosts.Want :=
              [ {| xknownhosts.Key := sample.rsaKey;
                   xknownhosts.Filename := "a/known_hosts";
                   xknownhosts.Line := 7 |} ] |} ]) keyErr ∧
     xknownhosts.Want keyErr ≠ []) ∧
  ¬ (IsHostKeyChanged
       (joinError
          [ KeyErr {| xknownhosts.Want := [] |};
            KeyErr {| xknownhosts.Want :=
              [ {| xknownhosts.Key := sample.rsaKey;
                   xknownhosts.Filename := "a/known_hosts";
                   xknownhosts.Line := 7 |} ] |} ]) = true ↔
     ∃ keyErr,
       Wraps
         (joinError
            [ KeyErr {| xknownhosts.Want := [] |};
              KeyErr {| xknownhosts.Want :=
                [ {| xknownhosts.Key := sample.rsaKey;
                     xknownhosts.Filename := "a/known_hosts";
                     xknownhosts.Line := 7 |} ] |} ]) keyErr ∧
       xknownhosts.Want keyErr ≠ []).
Proof.
  assert (∃ keyErr,
     Wraps
       (joinError
          [ KeyErr {| xknownhosts.Want := [] |};
            KeyErr {| xknownhosts.Want :=
              [ {| xknownhosts.Key := sample.rsaKey;
                   xknownhosts.Filename := "a/known_hosts";
                   xknownhosts.Line := 7 |} ] |} ]) keyErr ∧
     xknownhosts.Want keyErr ≠ []) as Hwraps.
  { eexists. split; [|shelve].
    eapply Wraps_join; [apply list_elem_of_further, list_elem_of_here|].
    apply Wraps_here. Unshelve. discriminate. }
  split; [reflexivity|]. split; [reflexivity|]. split; [exact Hwraps|].
  intros [_ Hiff]. specialize (Hiff Hwraps). discriminate Hiff.
Qed.

(** ** The line writer *)

Section whitespace.

(** The test [strings.ContainsAny(s, "\t ")] finds a tab or a space. *)
Lemma ContainsAny_tab_space s :
  ContainsAny s tab_space = true ↔
  " "%char ∈ String.list_ascii_of_string s
  ∨ "009"%char ∈ String.list_ascii_of_string s.
Proof.
  induction s as [|a s IH]; simpl.
  - split; [done|]. by intros [?%elem_of_nil|?%elem_of_nil].
  - rewrite orb_true_iff, IH, !elem_of_cons, bool_decide_eq_true.
    assert (0 ≤ (if Ascii.eqb "009" a then 0
                 else let r := if Ascii.eqb " " a then 0 else -1 in
                      if bool_decide (r < 0) then -1 else r + 1)
            ↔ " "%char = a ∨ "009"%char = a) as ->; [|tauto].
    destruct (Ascii.eqb_spec "009" a) as [Htab|Htab].
    { split; [by right|lia]. }
    destruct (Ascii.eqb_spec " " a) as [Hsp|Hsp]; cbv zeta.
    + rewrite bool_decide_eq_false_2 by lia. split; [by left|lia].
    + rewrite bool_decide_eq_true_2 by lia. split; [lia|by intros [?|?]].
Qed.

End whitespace.

(** C8: when the normalized hostname contains a space or a tab,
    [WriteKnownHost] returns the format error and leaves the writer as it
    was, whatever the writer, the remote address and the key; a buffer
    passed as the writer has received no byte. *)
Theorem WriteKnownHost_rejects_whitespace {W} `{Writer W}
    (w : W) (hostname : string) (remote : net.Addr) (key : ssh.PublicKey)
    (hostnameNormalized : string) :
  Normalize hostname = Some hostnameNormalized →
  (" "%char ∈ String.list_ascii_of_string hostnameNormalized
   ∨ "009"%char ∈ String.list_ascii_of_string hostnameNormalized) →
  WriteKnownHost w hostname remote key
    = Some (w, errorString ("knownhosts: hostname '" +:+ hostnameNormalized
                            +:+ "' contains spaces")) ∧
  (∀ buf : list Byte.byte,
     ∃ err, WriteKnownHost buf hostname remote key = Some (buf, err) ∧
            not_nil err = true).
Proof.
  intros Hnorm Hws. apply ContainsAny_tab_space in Hws.
  unfold WriteKnownHost. rewrite Hnorm. simpl. rewrite Hws.
  split; [done|]. intros buf. by eexists.
Qed.

Lemma WriteKnownHost_rejects_whitespace_witness :
  Normalize "my host:22" = Some "my host" ∧
  WriteKnownHost ([] : list Byte.byte) "my host:22"
    {| net.Network := "tcp"; net.String' := "192.0.2.7:22" |} sample.rsaKey
  = Some ([], errorString "knownhosts: hostname 'my host' contains spaces").
Proof.
  split; [reflexivity|].
  refine (proj1 (WriteKnownHost_rejects_whitespace (W:=list Byte.byte) []
            "my host:22" _ _ "my host" eq_refl _)).
  left. apply (bool_decide_unpack _). by vm_compute.
Defined.

(** * Further properties *)

(** ** The keys of the CA index *)

Section map_keys.

Lemma chars_app s t : chars (s +:+ t) = chars s ++ chars t.
Proof.
  induction s as [|a s IH]; [done|].
  change (String a s +:+ t) with (String a (s +:+ t)).
  unfold chars in *. simpl. by rewrite IH.
Qed.

Lemma pretty_N_char_no_colon x : pretty_N_char x ≠ ":"%char.
Proof. unfold pretty_N_char. by repeat case_match. Qed.

Lemma pretty_N_go_no_colon x s :
  ":"%char ∉ chars s → ":"%char ∉ chars (pretty_N_go x s).
Proof.
  revert s. induction (N.lt_wf_0 x) as [x _ IH]; intros s Hs.
  destruct (decide (x = 0)%N) as [->|Hx]; [by rewrite pretty_N_go_0|].
  rewrite pretty_N_go_step by lia. apply IH; [apply N.div_lt; lia|].
  unfold chars. simpl. apply not_elem_of_cons. split; [|done].
  intros Hc. by apply (pretty_N_char_no_colon (x `mod` 10)%N).
Qed.

Lemma pretty_N_no_colon (x : N) : ":"%char ∉ chars (pretty x).
Proof.
  unfold pretty, pretty_N. case_decide.
  - unfold chars. simpl. by intros [?|?%elem_of_nil]%elem_of_cons.
  - apply pretty_N_go_no_colon. by intros ?%elem_of_nil.
Qed.

(** The decimal form of a line number holds no colon. *)
Lemma pretty_Z_no_colon (x : Z) : ":"%char ∉ chars (pretty x).
Proof.
  destruct x as [|x|x]; unfold pretty, pretty_Z.
  - unfold chars. simpl. by intros [?|?%elem_of_nil]%elem_of_cons.
  - apply (pretty_N_no_colon (N.pos x)).
  - rewrite chars_app. apply not_elem_of_app. split.
    + unfold chars. simpl. by intros [?|?%elem_of_nil]%elem_of_cons.
    + apply (pretty_N_no_colon (N.pos x)).
Qed.

Lemma colon_split_unique f1 f2 p1 p2 :
  ":"%char ∉ chars p1 → ":"%char ∉ chars p2 →
  f1 +:+ ":" +:+ p1 = f2 +:+ ":" +:+ p2 → f1 = f2 ∧ p1 = p2.
Proof.
  intros Hp1 Hp2. revert f2.
  induction f1 as [|a f1 IH]; intros [|b f2] Heq.
  - change (String ":" p1 = String ":" p2) in Heq. by injection Heq as ->.
  - exfalso. change (String ":" p1 = String b (f2 +:+ ":" +:+ p2)) in Heq.
    injection Heq as _ ->. apply Hp1. rewrite chars_app. apply elem_of_app.
    right. unfold chars. simpl. by left.
  - exfalso. change (String a (f1 +:+ ":" +:+ p1) = String ":" p2) in Heq.
    injection Heq as _ <-. apply Hp2. rewrite chars_app. apply elem_of_app.
    right. unfold chars. simpl. by left.
  - change (String a (f1 +:+ ":" +:+ p1) = String b (f2 +:+ ":" +:+ p2)) in Heq.
    injection Heq as -> Heq. destruct (IH _ Heq) as [-> ->]. done.
Qed.

End map_keys.

Lemma mapKey_eq_inv filename filename' line line' :
  mapKey filename line = mapKey filename' line' →
  filename = filename' ∧ line = line'.
Proof.
  unfold mapKey. intros Heq.
  apply colon_split_unique in Heq as [-> Hline];
    [|apply pretty_Z_no_colon..].
  split; [done|]. by apply (inj pretty).
Qed.

(** X1: the key ["filename:line"] of the CA index determines the file name
    and the line number: two positions with the same key are the same
    position, whatever colons the file names hold. *)
Theorem mapKey_inj (filename filename' : string) (line line' : Z) :
  mapKey filename line = mapKey filename' line' →
  filename = filename' ∧ line = line'.
Proof. apply mapKey_eq_inv. Qed.

Lemma mapKey_inj_witness :
  mapKey "C:/known_hosts" 12 = mapKey "C:/known_hosts" 12 ∧
  "C:/known_hosts" = "C:/known_hosts" ∧ 12 = 12.
Proof.
  split; [reflexivity|].
  exact (mapKey_inj "C:/known_hosts" "C:/known_hosts" 12 12 eq_refl).
Defined.

(** ** Construction of the store *)

Section new_db_outcomes.
Context `{Platform}.

(** A file [NewDB] gets through: it opens and its scan ends without
    error. *)
Definition readable (filename : string) : Prop :=
  ∃ f, os_Open filename = inl f ∧ not_nil (scanErr f) = false.

Lemma scanLines_count filename lines lineNum m :
  (scanLines filename lines lineNum m).1 = lineNum + Z.of_nat (length lines).
Proof.
  revert lineNum m. induction lines as [|line lines IH]; intros lineNum m.
  - simpl. lia.
  - simpl. rewrite IH. lia.
Qed.

Lemma readFiles_readable files m :
  (∃ m', readFiles files m = inl m') ↔ Forall readable files.
Proof.
  revert m. induction files as [|filename files IH]; intros m; simpl.
  - split; [constructor|by eexists].
  - rewrite Forall_cons. unfold readable at 1.
    destruct (os_Open filename) as [f|e].
    + destruct (scanLines filename (tokens f) 0 m) as [n m1].
      destruct (not_nil (scanErr f)) eqn:Herr.
      * split; [by intros [? ?]|]. intros [(f' & [= <-] & ?) _]. congruence.
      * rewrite IH. split; [intros ?; split; [by exists f|done]|tauto].
    + split; [by intros [? ?]|]. by intros [(f' & ? & _) _].
Qed.

(** After the files [pre], all readable, [readFiles] goes on with the
    files that follow. *)
Lemma readFiles_app pre rest m :
  Forall readable pre →
  ∃ m', readFiles (pre ++ rest) m = readFiles rest m'.
Proof.
  intros Hpre. revert m.
  induction Hpre as [|filename pre (f & Hopen & Herr) _ IH]; intros m; simpl.
  - by eexists.
  - rewrite Hopen. destruct (scanLines filename (tokens f) 0 m) as [n m1].
    rewrite Herr. apply IH.
Qed.

End new_db_outcomes.

(** X2: [NewDB] returns a store exactly when the matcher is built without
    error and every file opens and is scanned to its end without error;
    a store never comes with an error, and its callback is the matcher's. *)
Theorem NewDB_succeeds_iff `{Platform} (files : list string) :
  ((∃ hkdb, (NewDB files).1 = Some hkdb) ↔
   not_nil (xknownhosts_New files).2 = false ∧ Forall readable files) ∧
  (∀ hkdb err, NewDB files = (Some hkdb, err) →
     err = ErrNil ∧ callback hkdb = (xknownhosts_New files).1) ∧
  (∀ err, NewDB files = (None, err) →
     not_nil (xknownhosts_New files).2 = true ∨ ¬ Forall readable files).
Proof.
  unfold NewDB. destruct (xknownhosts_New files) as [cb e]. simpl.
  pose proof (readFiles_readable files ∅) as Hread.
  destruct (not_nil e) eqn:He; simpl.
  - split_and!; [|done|by left].
    split; [by intros [? ?]|by intros [? _]].
  - destruct (readFiles files ∅) as [m|e'].
    + split_and!; [|by intros ?? [= <- <-]|done].
      split; [intros _; split; [done|]; apply Hread; by eexists|by eexists].
    + split_and!; [|done|].
      * split; [by intros [? ?]|]. intros [_ [? ?]%Hread]. done.
      * intros _ _. right. intros [? ?]%Hread. done.
Qed.

(** X3: in a store built by [NewDB], a known key is flagged as CA exactly
    when the file it comes from is one of the files read and the line it
    stands on passes the [@cert-authority] test of [NewDB]. *)
Theorem flagged_iff_cert_authority_line `{Platform}
    (files : list string) (hkdb : HostKeyDB) (err : error)
    (kkey : xknownhosts.KnownKey) :
  NewDB files = (Some hkdb, err) →
  (Cert (flagged hkdb kkey) = true ↔
   xknownhosts.Filename kkey ∈ files ∧
   ∃ f (n : nat) line,
     os_Open (xknownhosts.Filename kkey) = inl f ∧
     xknownhosts.Line kkey = Z.of_nat n + 1 ∧
     tokens f !! n = Some line ∧ isCertLine line = true).
Proof.
  intros Hdb. destruct (NewDB_index _ _ _ Hdb) as [Htrue Hiff]. split.
  - unfold flagged. simpl. case_bool_decide; [|done].
    destruct (isCert hkdb !! _) as [v|] eqn:Hv; [|done]. simpl. intros ->.
    apply Hiff in Hv as (filename & f & n & line & Hin & Hopen & Hn & Hca & Hkey).
    apply mapKey_eq_inv in Hkey as [-> ->]. by eauto 10.
  - intros (Hin & f & n & line & Hopen & Hline & Hn & Hca).
    apply flagged_true, Hiff. exists (xknownhosts.Filename kkey), f, n, line.
    rewrite Hline. done.
Qed.

Lemma flagged_iff_cert_authority_line_witness :
  let hkdb := {| callback := sample.matcher sample.threeKeys;
                 isCert := sample.caLine7 |} in
  let kkey := {| xknownhosts.Key := sample.rsaKey;
                 xknownhosts.Filename := "a/known_hosts";
                 xknownhosts.Line := 7 |} in
  NewDB (H:=sample.platform) ["a/known_hosts"; "b/known_hosts"]
    = (Some hkdb, ErrNil) ∧
  (Cert (flagged hkdb kkey) = true ↔
   "a/known_hosts" ∈ ["a/known_hosts"; "b/known_hosts"] ∧
   ∃ f (n : nat) line,
     os_Open (Platform:=sample.platform) "a/known_hosts" = inl f ∧
     7 = Z.of_nat n + 1 ∧
     tokens f !! n = Some line ∧
     isCertLine (H:=sample.platform) line = true).
Proof.
  intros hkdb kkey. split; [reflexivity|].
  exact (flagged_iff_cert_authority_line (H:=sample.platform)
           ["a/known_hosts"; "b/known_hosts"] hkdb ErrNil kkey eq_refl).
Defined.

(** X4: when the matcher is built and the files before [filename] are all
    readable, a failure on [filename] ends [NewDB] without a store: with
    the error of [os.Open] as it is, or with the scanner's error wrapped
    under the file name and the number of lines scanned. *)
Theorem NewDB_first_failure `{Platform}
    (pre post : list string) (filename : string) :
  not_nil (xknownhosts_New (pre ++ filename :: post)).2 = false →
  Forall readable pre →
  (∀ err, os_Open filename = inr err →
     NewDB (pre ++ filename :: post) = (None, err)) ∧
  (∀ f, os_Open filename = inl f → not_nil (scanErr f) = true →
     NewDB (pre ++ filename :: post)
     = (None,
        wrapError ("knownhosts: " +:+ filename +:+ ":"
                   +:+ pretty (Z.of_nat (length (tokens f))) +:+ ": ")
                  (scanErr f))).
Proof.
  intros Hnew Hpre. unfold NewDB.
  destruct (xknownhosts_New _) as [cb e]. simpl in Hnew. rewrite Hnew.
  destruct (readFiles_app pre (filename :: post) ∅ Hpre) as [m ->].
  simpl. split.
  - by intros err ->.
  - intros f -> Herr. pose proof (scanLines_count filename (tokens f) 0 m) as Hn.
    destruct (scanLines filename (tokens f) 0 m) as [n m1]. simpl in Hn.
    rewrite Herr, Hn. done.
Qed.

Lemma NewDB_first_failure_witness :
  NewDB (H:=sample_faults.platform)
    ["a/known_hosts"; "b/known_hosts"; "c/known_hosts"]
  = (None, wrapError "knownhosts: b/known_hosts:2: " sample_faults.readError) ∧
  NewDB (H:=sample_faults.platform)
    ["a/known_hosts"; "c/known_hosts"; "b/known_hosts"]
  = (None, sample_faults.openError).
Proof.
  assert (Forall (readable (H:=sample_faults.platform)) ["a/known_hosts"])
    as Hpre.
  { repeat constructor. by eexists. }
  split.
  - exact (proj2 (NewDB_first_failure (H:=sample_faults.platform)
                    ["a/known_hosts"] ["c/known_hosts"] "b/known_hosts"
                    eq_refl Hpre) _ eq_refl eq_refl).
  - exact (proj1 (NewDB_first_failure (H:=sample_faults.platform)
                    ["a/known_hosts"] ["b/known_hosts"] "c/known_hosts"
                    eq_refl Hpre) _ eq_refl).
Defined.

(** ** More on the algorithm list *)

Section algorithm_list.

Lemma first_seen_cons_new seen a l :
  a ∉ seen → first_seen seen (a :: l) = a :: first_seen (seen ++ [a]) l.
Proof. intros Ha. simpl. by rewrite decide_False. Qed.

Lemma first_seen_nil_inv l : first_seen [] l = [] → l = [].
Proof.
  destruct l as [|a l]; [done|].
  rewrite first_seen_cons_new by (by intros ?%elem_of_nil). done.
Qed.

Lemma offered_not_nil key : offered key ≠ [].
Proof.
  unfold offered. intros Hnil. apply (f_equal length) in Hnil.
  rewrite length_fmap, List.length_app in Hnil. simpl in Hnil. lia.
Qed.

Lemma bind_offered_nil_inv keys : keys ≫= offered = [] → keys = [].
Proof.
  destruct keys as [|key keys]; [done|]. rewrite bind_cons.
  intros [Hk _]%app_eq_nil. by apply offered_not_nil in Hk.
Qed.

(** [keyTypeToCertAlgo] gives a certificate algorithm for a listed key
    type and the empty string for any other. *)
Lemma keyTypeToCertAlgo_range keyType :
  (keyType ∈ mappedKeyTypes ∧ keyTypeToCertAlgo keyType ∈ ssh.CertAlgos)
  ∨ ((keyType ∉ mappedKeyTypes) ∧ keyTypeToCertAlgo keyType = "").
Proof.
  destruct (decide (keyType ∈ mappedKeyTypes)) as [Hin|Hout];
    [left; split; [done|]|right; split; [done|by apply keyTypeToCertAlgo_unmapped]].
  unfold mappedKeyTypes in Hin.
  repeat (apply elem_of_cons in Hin as [->|Hin];
          [apply (bool_decide_unpack _); by vm_compute|]).
  by apply elem_of_nil in Hin.
Qed.

(** No substitution gives one of the three RSA identifiers. *)
Lemma keyTypeToCertAlgo_not_rsa keyType :
  keyTypeToCertAlgo keyType
    ∉ [ssh.KeyAlgoRSASHA512; ssh.KeyAlgoRSASHA256; ssh.KeyAlgoRSA].
Proof.
  destruct (keyTypeToCertAlgo_range keyType) as [[_ Hin]|[_ ->]].
  - unfold ssh.CertAlgos in Hin.
    repeat (apply elem_of_cons in Hin as [->|Hin];
            [apply (bool_decide_unpack _); by vm_compute|]).
    by apply elem_of_nil in Hin.
  - apply (bool_decide_unpack _). by vm_compute.
Qed.

(** The three identifiers of an unflagged key of the generic RSA type. *)
Definition rsaBlock : list string :=
  [ssh.KeyAlgoRSASHA512; ssh.KeyAlgoRSASHA256; ssh.KeyAlgoRSA].

Lemma first_seen_rsaBlock seen rest :
  (∀ a, a ∈ rsaBlock → a ∉ seen) →
  first_seen seen (rsaBlock ++ rest)
  = rsaBlock ++ first_seen (seen ++ rsaBlock) rest.
Proof.
  intros Hseen. unfold rsaBlock in *. cbn [app].
  rewrite first_seen_cons_new by (apply Hseen; repeat constructor).
  rewrite first_seen_cons_new.
  2:{ rewrite elem_of_app, list_elem_of_singleton. intros [Hin|?]; [|done].
      revert Hin. apply Hseen. repeat constructor. }
  rewrite first_seen_cons_new.
  2:{ rewrite !elem_of_app, !list_elem_of_singleton.
      intros [[Hin|?]|?]; [|done..].
      revert Hin. apply Hseen. repeat constructor. }
  by rewrite <-!app_assoc.
Qed.

Lemma rsaBlock_in_first_seen keys seen :
  (∀ key, key ∈ keys →
     ssh.Type' (PublicKey_ key) ≠ ssh.KeyAlgoRSASHA512 ∧
     ssh.Type' (PublicKey_ key) ≠ ssh.KeyAlgoRSASHA256) →
  (∃ key, key ∈ keys ∧
     ssh.Type' (PublicKey_ key) = ssh.KeyAlgoRSA ∧ Cert key = false) →
  (∀ a, a ∈ rsaBlock → a ∉ seen) →
  ∃ pre post,
    first_seen seen (keys ≫= offered) = pre ++ rsaBlock ++ post.
Proof.
  revert seen. induction keys as [|key keys IH]; intros seen Htypes Hrsa Hseen.
  { destruct Hrsa as (? & ?%elem_of_nil & _). done. }
  rewrite bind_cons.
  destruct (decide (ssh.Type' (PublicKey_ key) = ssh.KeyAlgoRSA
                    ∧ Cert key = false)) as [[Htyp Hcert]|Hother].
  - exists [], (first_seen (seen ++ rsaBlock) (keys ≫= offered)).
    assert (offered key = rsaBlock) as ->.
    { unfold offered. by rewrite Htyp, Hcert. }
    by rewrite first_seen_rsaBlock.
  - assert (∀ a, a ∈ offered key → a ∉ rsaBlock) as Hoff.
    { intros a. unfold offered. destruct (Cert key) eqn:Hcert.
      - intros (typ & -> & _)%list_elem_of_fmap. apply keyTypeToCertAlgo_not_rsa.
      - unfold substituted. rewrite list_fmap_id.
        destruct (String.eqb_spec (ssh.Type' (PublicKey_ key)) ssh.KeyAlgoRSA)
          as [Htyp|Htyp]; [by destruct Hother|].
        simpl. intros ->%list_elem_of_singleton.
        destruct (Htypes key) as [? ?]; [by left|].
        unfold rsaBlock. rewrite !elem_of_cons, elem_of_nil. tauto. }
    rewrite first_seen_app.
    destruct (IH (seen ++ first_seen seen (offered key))) as (pre & post & ->).
    + intros k Hk. apply Htypes. by right.
    + destruct Hrsa as (k & [->|Hk]%elem_of_cons & Htyp & Hcert);
        [by destruct Hother|by eauto].
    + intros a Ha. rewrite not_elem_of_app. split; [by apply Hseen|].
      rewrite elem_of_first_seen. intros [Hin _]. by apply (Hoff a).
    + eexists (_ ++ pre), post. by rewrite <-app_assoc.
Qed.

End algorithm_list.


(** X6: when a known key of the host is of the generic RSA type and not
    flagged as CA, and no known key has one of the two RSA SHA-2 signature
    algorithms as its type (they are no key formats), the list holds
    [rsa-sha2-512, rsa-sha2-256, ssh-rsa] as three consecutive elements, in
    this order, whatever other keys the host has. *)
Theorem HostKeyAlgorithms_rsa_block `{SliceSorter}
    (hkdb : HostKeyDB) (host : string) :
  (∀ key, key ∈ HostKeyDB.HostKeys hkdb host →
     ssh.Type' (PublicKey_ key) ≠ ssh.KeyAlgoRSASHA512 ∧
     ssh.Type' (PublicKey_ key) ≠ ssh.KeyAlgoRSASHA256) →
  (∃ key, key ∈ HostKeyDB.HostKeys hkdb host ∧
     ssh.Type' (PublicKey_ key) = ssh.KeyAlgoRSA ∧ Cert key = false) →
  ∃ pre post,
    HostKeyDB.HostKeyAlgorithms hkdb host
    = pre ++ [ssh.KeyAlgoRSASHA512; ssh.KeyAlgoRSASHA256; ssh.KeyAlgoRSA]
          ++ post.
Proof.
  intros Htypes Hrsa. rewrite HostKeyAlgorithms_first_seen.
  apply rsaBlock_in_first_seen; [done|done|]. by intros a _ ?%elem_of_nil.
Qed.

Lemma HostKeyAlgorithms_rsa_block_witness :
  let hkdb := {| callback := sample.matcher sample.threeKeys; isCert := ∅ |} in
  HostKeyDB.HostKeyAlgorithms hkdb "example.com:22"
    = ["ecdsa-sha2-nistp256"; "rsa-sha2-512"; "rsa-sha2-256"; "ssh-rsa";
       "ssh-ed25519"] ∧
  ∃ pre post,
    HostKeyDB.HostKeyAlgorithms hkdb "example.com:22"
    = pre ++ ["rsa-sha2-512"; "rsa-sha2-256"; "ssh-rsa"] ++ post.
Proof.
  intros hkdb. split; [reflexivity|].
  refine (HostKeyAlgorithms_rsa_block hkdb "example.com:22" _ _).
  - intros key Hkey. vm_compute in Hkey.
    repeat (apply elem_of_cons in Hkey as [->|Hkey]; [by vm_compute|]).
    by apply elem_of_nil in Hkey.
  - exists {| PublicKey_ := sample.rsaKey; Cert := false |}.
    split; [|by vm_compute]. apply list_elem_of_further, list_elem_of_here.
Defined.

(** X7: the substitution table of [keyTypeToCertAlgo] sends the listed key
    types one-to-one onto the certificate algorithms of package ssh and
    every other string to the empty string; what it gives is never itself
    a listed key type, so a second substitution always gives the empty
    string. *)
Theorem keyTypeToCertAlgo_table :
  (∀ keyType,
     keyType ∈ mappedKeyTypes ↔ keyTypeToCertAlgo keyType ∈ ssh.CertAlgos) ∧
  (∀ keyType,
     keyType ∉ mappedKeyTypes ↔ keyTypeToCertAlgo keyType = "") ∧
  (∀ keyType keyType',
     keyType ∈ mappedKeyTypes →
     keyTypeToCertAlgo keyType = keyTypeToCertAlgo keyType' →
     keyType = keyType') ∧
  keyTypeToCertAlgo <$> mappedKeyTypes ≡ₚ ssh.CertAlgos ∧
  (∀ keyType, keyTypeToCertAlgo (keyTypeToCertAlgo keyType) = "").
Proof.
  assert (Hempty : "" ∉ ssh.CertAlgos)
    by (apply (bool_decide_unpack _); by vm_compute).
  assert (Hin : ∀ keyType,
     keyType ∈ mappedKeyTypes ↔ keyTypeToCertAlgo keyType ∈ ssh.CertAlgos).
  { intros keyType.
    destruct (keyTypeToCertAlgo_range keyType) as [[? ?]|[? Hk]]; [done|].
    rewrite Hk. tauto. }
  assert (Hout : ∀ keyType,
     keyType ∉ mappedKeyTypes ↔ keyTypeToCertAlgo keyType = "").
  { intros keyType.
    destruct (keyTypeToCertAlgo_range keyType) as [[? Hk]|[? ?]]; [|done].
    split; [done|]. intros Hk'. rewrite Hk' in Hk. done. }
  split_and!; [done|done|..].
  - intros keyType keyType' Hk Heq.
    assert (keyType' ∈ mappedKeyTypes) as Hk'.
    { apply Hin. rewrite <-Heq. by apply Hin. }
    unfold mappedKeyTypes in Hk, Hk'.
    repeat (apply elem_of_cons in Hk as [->|Hk];
      [repeat (apply elem_of_cons in Hk' as [->|Hk'];
               [by vm_compute in Heq|]);
       by apply elem_of_nil in Hk'|]).
    by apply elem_of_nil in Hk.
  - apply NoDup_Permutation.
    + apply (bool_decide_unpack _). by vm_compute.
    + apply (bool_decide_unpack _). by vm_compute.
    + intros c. split.
      * intros (t & -> & Ht)%list_elem_of_fmap. by apply Hin.
      * intros Hc. unfold ssh.CertAlgos in Hc.
        repeat (apply elem_of_cons in Hc as [->|Hc];
                [apply (bool_decide_unpack _); by vm_compute|]).
        by apply elem_of_nil in Hc.
  - intros keyType. apply Hout.
    destruct (keyTypeToCertAlgo_range keyType) as [[_ Hc]|[_ ->]].
    + unfold ssh.CertAlgos in Hc.
      repeat (apply elem_of_cons in Hc as [->|Hc];
              [apply (bool_decide_unpack _); by vm_compute|]).
      by apply elem_of_nil in Hc.
    + apply (bool_decide_unpack _). by vm_compute.
Qed.

(** ** The store and the variant without the CA index *)

(** X8: for a host none of whose known keys is flagged as CA, the store
    and the variant without the CA index agree: [HostKeyDB.HostKeys] gives
    the keys of [HostKeyCallback.HostKeys] on the store's callback, each
    with the flag false, and [HostKeyDB.HostKeyAlgorithms],
    [HostKeyCallback.HostKeyAlgorithms] and the package-level
    [HostKeyAlgorithms] give the same list.  For a store built by [NewDB]
    that callback is the one [New] returns for the same files. *)
Theorem unflagged_host_agrees_with_variant `{SliceSorter} {platform : Platform}
    (hkdb : HostKeyDB) (host : string) :
  (∀ key, key ∈ HostKeyDB.HostKeys hkdb host → Cert key = false) →
  let hkcb : HostKeyCallback := HostKeyDB.HostKeyCallback hkdb in
  HostKeyDB.HostKeys hkdb host
    = (λ key, {| PublicKey_ := key; Cert := false |})
        <$> HostKeyCallback.HostKeys hkcb host ∧
  HostKeyDB.HostKeyAlgorithms hkdb host
    = HostKeyCallback.HostKeyAlgorithms hkcb host ∧
  HostKeyDB.HostKeyAlgorithms hkdb host = HostKeyAlgorithms hkcb host ∧
  (∀ files err, NewDB files = (Some hkdb, err) → (New files).1 = hkcb).
Proof.
  intros Hunflagged hkcb.
  assert (HostKeyDB.HostKeys hkdb host
          = HostKeyDB.HostKeys {| callback := hkcb; isCert := ∅ |} host) as Hkeys.
  { revert Hunflagged. unfold HostKeyDB.HostKeys, hkcb, HostKeyDB.HostKeyCallback.
    simpl. destruct (errors_As _); [|done]. intros Hunflagged.
    apply list_fmap_ext. intros i kkey Hi.
    assert (Cert (flagged hkdb kkey) = false) as Hc.
    { apply Hunflagged, list_elem_of_fmap_2. by eapply list_elem_of_lookup_2. }
    revert Hc. unfold flagged. simpl. by intros ->. }
  split_and!.
  - rewrite Hkeys. unfold HostKeyCallback.HostKeys.
    rewrite <-list_fmap_compose. symmetry.
    erewrite list_fmap_ext; [apply list_fmap_id|]. intros i [k c] Hi. simpl.
    f_equal. symmetry.
    apply (HostKeys_empty_index_unflagged hkcb host (mkPublicKey k c)).
    by eapply list_elem_of_lookup_2.
  - unfold HostKeyCallback.HostKeyAlgorithms, HostKeyDB.HostKeyAlgorithms.
    by rewrite Hkeys.
  - unfold HostKeyAlgorithms, HostKeyCallback.HostKeyAlgorithms,
      HostKeyDB.HostKeyAlgorithms.
    by rewrite Hkeys.
  - intros files err. unfold NewDB, New.
    destruct (xknownhosts_New files) as [cb e]. destruct (not_nil e); [done|].
    destruct (readFiles files ∅); [|done]. by intros [= <- _].
Qed.

Lemma unflagged_host_agrees_with_variant_witness :
  let hkdb := {| callback := sample.matcher sample.threeKeys;
                 isCert := {[ "b/known_hosts:9" := true ]} |} in
  HostKeyDB.HostKeyAlgorithms hkdb "example.com:22"
    = HostKeyCallback.HostKeyAlgorithms (sample.matcher sample.threeKeys)
        "example.com:22" ∧
  HostKeyDB.HostKeyAlgorithms hkdb "example.com:22"
    = ["ecdsa-sha2-nistp256"; "rsa-sha2-512"; "rsa-sha2-256"; "ssh-rsa";
       "ssh-ed25519"].
Proof.
  intros hkdb. split; [|reflexivity].
  refine (proj1 (proj2 (unflagged_host_agrees_with_variant
                          (platform:=sample.platform) hkdb "example.com:22" _))).
  intros key Hkey. vm_compute in Hkey.
  repeat (apply elem_of_cons in Hkey as [->|Hkey]; [reflexivity|]).
  by apply elem_of_nil in Hkey.
Defined.

(** ** More on [Normalize] *)

Section index_facts.
Implicit Types (s h t : string) (c x : ascii).

Lemma chars_cons a s : chars (String a s) = a :: chars s.
Proof. done. Qed.

Lemma len_cons a s : len (String a s) = len s + 1.
Proof. unfold len. simpl. lia. Qed.

Lemma len_app s t : len (s +:+ t) = len s + len t.
Proof. unfold len. rewrite length_app. lia. Qed.

Lemma len_nonneg s : 0 ≤ len s.
Proof. unfold len. lia. Qed.

Lemma IndexByteString_range s c :
  IndexByteString s c = -1 ∨ 0 ≤ IndexByteString s c < len s.
Proof.
  induction s as [|a s IH]; simpl; [by left|]. rewrite len_cons.
  destruct (Ascii.eqb a c); [right; pose proof (len_nonneg s); lia|].
  case_bool_decide; [by left|right; lia].
Qed.

Lemma IndexByteString_elem s c : 0 ≤ IndexByteString s c ↔ c ∈ chars s.
Proof.
  induction s as [|a s IH]; simpl.
  - split; [lia|by intros ?%elem_of_nil].
  - rewrite chars_cons, elem_of_cons, <-IH.
    destruct (Ascii.eqb_spec a c) as [->|Hne]; [split; [by left|lia]|].
    case_bool_decide; [split; [lia|intros [?|?]; [done|lia]]|].
    split; [right; lia|lia].
Qed.

Lemma last_range s c : last s c = -1 ∨ 0 ≤ last s c < len s.
Proof.
  induction s as [|a s IH]; simpl; [by left|]. rewrite len_cons.
  case_bool_decide; [right; lia|].
  destruct (Ascii.eqb a c); [right; pose proof (len_nonneg s); lia|by left].
Qed.

Lemma last_elem s c : 0 ≤ last s c ↔ c ∈ chars s.
Proof.
  induction s as [|a s IH]; simpl.
  - split; [lia|by intros ?%elem_of_nil].
  - rewrite chars_cons, elem_of_cons, <-IH.
    case_bool_decide; [split; [by right|lia]|].
    destruct (Ascii.eqb_spec a c) as [->|Hne]; [split; [by left|lia]|].
    split; [lia|intros [?|?]; [done|lia]].
Qed.

(** The first occurrence of [c] in [h ++ c :: t] when [h] holds none. *)
Lemma IndexByteString_app h c t :
  c ∉ chars h → IndexByteString (h +:+ String c t) c = len h.
Proof.
  induction h as [|a h IH]; intros Hc.
  - change ("" +:+ String c t) with (String c t). simpl.
    by rewrite Ascii.eqb_refl.
  - change (String a h +:+ String c t) with (String a (h +:+ String c t)).
    rewrite chars_cons in Hc. apply not_elem_of_cons in Hc as [Hne Hc].
    simpl. rewrite IH by done. rewrite len_cons.
    destruct (Ascii.eqb_spec a c) as [->|_]; [done|].
    pose proof (len_nonneg h). rewrite bool_decide_eq_false_2 by lia. done.
Qed.

(** The last occurrence of [c] in [h ++ c :: t] when [t] holds none. *)
Lemma last_app h c t :
  c ∉ chars t → last (h +:+ String c t) c = len h.
Proof.
  intros Hc. induction h as [|a h IH].
  - change ("" +:+ String c t) with (String c t). simpl.
    rewrite bool_decide_eq_false_2; [by rewrite Ascii.eqb_refl|].
    rewrite last_elem. done.
  - change (String a h +:+ String c t) with (String a (h +:+ String c t)).
    simpl. rewrite IH, len_cons. pose proof (len_nonneg h).
    by rewrite bool_decide_eq_true_2 by lia.
Qed.

Lemma upto_app h t : upto (h +:+ t) (len h) = h.
Proof. unfold upto, len. rewrite Nat2Z.id. apply substring_app_l. Qed.

Lemma from_app h t : from (h +:+ t) (len h) = t.
Proof.
  unfold from, len. rewrite Nat2Z.id, length_app.
  replace (_ + _ - _)%nat with (String.length t) by lia.
  apply substring_app_r.
Qed.

Lemma from_0 s : from s 0 = s.
Proof.
  unfold from. change (Z.to_nat 0) with 0%nat. rewrite Nat.sub_0_r.
  apply substring_all.
Qed.

Lemma chars_substring n m s x :
  x ∈ chars (String.substring n m s) → x ∈ chars s.
Proof.
  revert n m. induction s as [|a s IH]; intros [|n] [|m]; simpl;
    try (by intros ?%elem_of_nil); rewrite ?chars_cons, ?elem_of_cons.
  - intros [?|?]; [by left|right]. by eapply IH.
  - intros ?. right. by eapply IH.
  - intros ?. right. by eapply IH.
Qed.

(** A string splits at an index within it. *)
Lemma upto_from s (n : Z) : 0 ≤ n ≤ len s → s = upto s n +:+ from s n.
Proof.
  intros Hn. unfold upto, from. apply substring_split. unfold len in Hn. lia.
Qed.

Lemma len_upto s (n : Z) : 0 ≤ n ≤ len s → len (upto s n) = n.
Proof.
  unfold upto, len. intros Hn.
  assert (∀ (k : nat) t, (k ≤ String.length t)%nat →
            String.length (String.substring 0 k t) = k) as Hk.
  { intros k. induction k as [|k IH]; intros [|a t] ?; simpl in *; try lia.
    rewrite IH by lia. done. }
  rewrite Hk by lia. lia.
Qed.

(** A string with an occurrence of [c] splits at the last one. *)
Lemma last_split s c :
  0 ≤ last s c →
  ∃ t, s = upto s (last s c) +:+ String c t ∧ c ∉ chars t.
Proof.
  induction s as [|a s IH]; simpl; [lia|].
  case_bool_decide as Hr.
  - intros _. destruct (IH Hr) as (t & Hs & Ht). exists t. split; [|done].
    unfold upto in *. replace (Z.to_nat (last s c + 1))
      with (S (Z.to_nat (last s c))) by lia.
    simpl. change (String a ?u +:+ ?v) with (String a (u +:+ v)).
    by rewrite <-Hs.
  - destruct (Ascii.eqb_spec a c) as [->|Hne]; [|lia]. intros _.
    exists s. split; [done|]. rewrite <-last_elem. lia.
Qed.

End index_facts.

Section split_forms.
Implicit Types (s h p t : string) (c x : ascii).

Lemma ContainsAny_false s cs c :
  ContainsAny s cs = false → c ∈ chars cs → c ∉ chars s.
Proof.
  induction s as [|a s IH]; [by intros _ _ ?%elem_of_nil|].
  simpl. intros [Ha Hs]%orb_false_elim Hc.
  rewrite chars_cons. apply not_elem_of_cons. split; [|by apply IH].
  intros ->. apply bool_decide_eq_false in Ha. by apply Ha, IndexByteString_elem.
Qed.

Lemma ContainsAny_true s cs :
  ContainsAny s cs = true → ∃ c, c ∈ chars cs ∧ c ∈ chars s.
Proof.
  induction s as [|a s IH]; [done|]. simpl.
  intros [Ha%bool_decide_eq_true|Hs]%orb_prop.
  - exists a. split; [by apply IndexByteString_elem|]. rewrite chars_cons. by left.
  - destruct (IH Hs) as (c & ? & ?). exists c. split; [done|].
    rewrite chars_cons. by right.
Qed.

Lemma at_0_elem s x : at_ s 0 = Some x → x ∈ chars s.
Proof.
  destruct s as [|a s]; [done|]. unfold at_. simpl. intros [= ->].
  rewrite chars_cons. by left.
Qed.

Lemma index_absent s c : c ∉ chars s → bool_decide (0 ≤ IndexByteString s c) = false.
Proof. intros Hc. apply bool_decide_eq_false. by rewrite IndexByteString_elem. Qed.

Lemma not_bracketed s : "["%char ∉ chars s → HasPrefix s "[" = false.
Proof.
  intros Hs. destruct (HasPrefix s "[") eqn:Hp; [exfalso|done].
  apply HasPrefix_true in Hp as [q ->]. apply Hs.
  change ("[" +:+ q) with (String "[" q). rewrite chars_cons. by left.
Qed.

Lemma app_cons_assoc h c t : h +:+ String c t = (h +:+ String c "") +:+ t.
Proof.
  induction h as [|a h IH]; [done|].
  change (String a (h +:+ String c t) = String a ((h +:+ String c "") +:+ t)).
  by rewrite IH.
Qed.

(** [host:port] splits into its two parts. *)
Lemma SplitHostPort_plain h p :
  ContainsAny h ":[]" = false → ContainsAny p ":[]" = false →
  SplitHostPort (h +:+ ":" +:+ p) = (h, p, ErrNil).
Proof.
  intros Hh Hp.
  assert (∀ c, c ∈ chars ":[]" → c ∉ chars (h +:+ ":" +:+ p) ∨ c = ":"%char)
    as Hall.
  { intros c Hc. destruct (decide (c = ":"%char)) as [->|Hne]; [by right|left].
    rewrite !chars_app, !not_elem_of_app. split_and!.
    - by eapply ContainsAny_false.
    - by intros ->%list_elem_of_singleton.
    - by eapply ContainsAny_false. }
  assert ("["%char ∉ chars (h +:+ ":" +:+ p)) as Hopen.
  { destruct (Hall "["%char) as [?|?]; [repeat constructor|done..]. }
  assert ("]"%char ∉ chars (h +:+ ":" +:+ p)) as Hclose.
  { destruct (Hall "]"%char) as [?|?]; [repeat constructor|done..]. }
  unfold SplitHostPort.
  change (h +:+ ":" +:+ p) with (h +:+ String ":" p) in *.
  rewrite last_app by (eapply ContainsAny_false; [done|repeat constructor]).
  pose proof (len_nonneg h).
  rewrite bool_decide_eq_false_2 by lia. cbv zeta.
  rewrite (bool_decide_eq_false_2 (at_ _ 0 = _))
    by (by intros ?%at_0_elem).
  rewrite upto_app, index_absent
    by (eapply ContainsAny_false; [done|repeat constructor]).
  rewrite from_0, !index_absent by done.
  do 2 f_equal.
  rewrite (app_cons_assoc h ":" p).
  replace (len h + 1) with (len (h +:+ ":")) by (rewrite len_app; done).
  apply from_app.
Qed.

(** [[host]:port] splits into its two parts; the host may hold colons. *)
Lemma SplitHostPort_bracketed h p :
  ContainsAny h "[]" = false → ContainsAny p ":[]" = false →
  SplitHostPort ("[" +:+ h +:+ "]:" +:+ p) = (h, p, ErrNil).
Proof.
  intros Hh Hp.
  assert (("["%char ∉ chars h) ∧ ("]"%char ∉ chars h)) as [Hho Hhc].
  { split; (eapply ContainsAny_false; [done|repeat constructor]). }
  assert ((":"%char ∉ chars p) ∧ ("["%char ∉ chars p) ∧ ("]"%char ∉ chars p))
    as (Hpc & Hpo & Hpcl).
  { split_and!; (eapply ContainsAny_false; [done|repeat constructor]). }
  pose proof (len_nonneg h). pose proof (len_nonneg p).
  set (hostport := "[" +:+ h +:+ "]:" +:+ p).
  assert (hostport = String "[" (h +:+ "]") +:+ String ":" p) as E1.
  { unfold hostport.
    change (String "[" (h +:+ String "]" (String ":" p))
            = String "[" ((h +:+ "]") +:+ String ":" p)).
    by rewrite (app_cons_assoc h "]"). }
  assert (hostport = String "[" h +:+ String "]" (String ":" p)) as E2 by done.
  assert (hostport = String "[" (h +:+ "]:") +:+ p) as E3.
  { rewrite E1. change (String "[" ((h +:+ "]") +:+ String ":" p)
                        = String "[" ((h +:+ "]:") +:+ p)).
    f_equal. rewrite (app_cons_assoc (h +:+ "]") ":").
    f_equal. clear. induction h as [|a h IH]; [done|].
    change (String a ((h +:+ "]") +:+ ":") = String a (h +:+ "]:")).
    by rewrite IH. }
  assert (len hostport = len h + 3 + len p) as Hlen.
  { rewrite E3, len_app, len_cons, len_app. unfold len at 2. simpl. lia. }
  assert (last hostport ":" = len h + 2) as Hlast.
  { rewrite E1, last_app by done. rewrite len_cons, len_app.
    unfold len at 2. simpl. lia. }
  assert (IndexByteString hostport "]" = len h + 1) as Hend.
  { rewrite E2, IndexByteString_app; [by rewrite len_cons|].
    rewrite chars_cons. apply not_elem_of_cons. done. }
  unfold SplitHostPort. fold hostport. rewrite Hlast.
  rewrite bool_decide_eq_false_2 by lia. cbv zeta.
  rewrite (bool_decide_eq_true_2 (at_ hostport 0 = _)) by done.
  rewrite Hend.
  rewrite (bool_decide_eq_false_2 (len h + 1 < 0)) by lia.
  rewrite (bool_decide_eq_false_2 (len h + 1 + 1 = len hostport)) by lia.
  rewrite (bool_decide_eq_true_2 (len h + 1 + 1 = len h + 2)) by lia.
  assert (from hostport 1 = h +:+ "]:" +:+ p) as ->.
  { change 1 with (len "["). apply (from_app "[" (h +:+ "]:" +:+ p)). }
  assert (from hostport (len h + 1 + 1) = String ":" p) as ->.
  { rewrite E1. replace (len h + 1 + 1) with (len (String "[" (h +:+ "]"))).
    - apply from_app.
    - rewrite len_cons, len_app. unfold len at 2. simpl. lia. }
  assert (from hostport (len h + 2 + 1) = p) as ->.
  { rewrite E3. replace (len h + 2 + 1) with (len (String "[" (h +:+ "]:"))).
    - apply from_app.
    - rewrite len_cons, len_app. unfold len at 2. simpl. lia. }
  rewrite index_absent.
  2:{ rewrite !chars_app, !not_elem_of_app. split_and!; [done| |done].
      apply (bool_decide_unpack _). by vm_compute. }
  rewrite index_absent.
  2:{ rewrite chars_cons. apply not_elem_of_cons. done. }
  do 2 f_equal.
  replace (Z.to_nat (len h + 1 - 1)) with (String.length h)
    by (unfold len; lia).
  unfold hostport. change (String.substring 1 ?n (String "[" ?u))
    with (String.substring 0 n u).
  apply substring_app_l.
Qed.

End split_forms.

Section split_results.
Implicit Types (s h p t a : string) (c x : ascii).

Lemma ContainsAny_false_intro s cs :
  (∀ c, c ∈ chars cs → c ∉ chars s) → ContainsAny s cs = false.
Proof.
  intros Hc. destruct (ContainsAny s cs) eqn:Hs; [exfalso|done].
  apply ContainsAny_true in Hs as (c & ? & ?). by apply (Hc c).
Qed.

(** The characters of [s[n:]] are among those of [s[m:]] for [m <= n]. *)
Lemma chars_suffix s (m n : nat) x :
  (m ≤ n)%nat →
  x ∈ chars (String.substring n (String.length s - n) s) →
  x ∈ chars (String.substring m (String.length s - m) s).
Proof.
  revert m n. induction s as [|a s IH]; intros m n Hmn.
  - by destruct n, m.
  - destruct m as [|m].
    + rewrite Nat.sub_0_r, substring_all. apply chars_substring.
    + destruct n as [|n]; [lia|]. simpl. apply IH. lia.
Qed.

Lemma chars_from s (m n : Z) x :
  0 ≤ m ≤ n → x ∈ chars (from s n) → x ∈ chars (from s m).
Proof. intros Hmn. unfold from. apply chars_suffix. lia. Qed.

(** Before its first occurrence in [s] there is no [c]. *)
Lemma IndexByteString_upto s c :
  c ∉ chars (upto s (IndexByteString s c)).
Proof.
  unfold upto. induction s as [|a s IH]; simpl; [by intros ?%elem_of_nil|].
  destruct (Ascii.eqb_spec a c) as [->|Hne]; [by intros ?%elem_of_nil|].
  case_bool_decide; [by intros ?%elem_of_nil|].
  replace (Z.to_nat (IndexByteString s c + 1))
    with (S (Z.to_nat (IndexByteString s c))) by lia.
  simpl. rewrite chars_cons. apply not_elem_of_cons. done.
Qed.

(** After its last occurrence in [s] there is no [c]. *)
Lemma last_from s c : 0 ≤ last s c → c ∉ chars (from s (last s c + 1)).
Proof.
  intros Hlast. destruct (last_split s c Hlast) as (t & Hs & Ht).
  pose proof (last_range s c) as Hr.
  assert (len (upto s (last s c)) = last s c) as Hlen by (apply len_upto; lia).
  revert Hs Hlen. generalize (upto s (last s c)). intros u -> Hlen.
  rewrite <-Hlen, (app_cons_assoc u c t).
  replace (len u + 1) with (len (u +:+ String c "")) by (by rewrite len_app).
  by rewrite from_app.
Qed.

(** What a successful [SplitHostPort] returns: a host without brackets
    (and without colon, unless the address starts with a bracket) and a
    port without colon or bracket; both are parts of the address. *)
Lemma SplitHostPort_ok a h p :
  SplitHostPort a = (h, p, ErrNil) →
  ContainsAny h "[]" = false ∧ ContainsAny p ":[]" = false ∧
  (at_ a 0 ≠ Some "["%char → ":"%char ∉ chars h).
Proof.
  unfold SplitHostPort. case_bool_decide as Hi; [done|]. cbv zeta.
  assert (∀ x (k : Z), 0 ≤ k → x ∉ chars (from a k) →
            k ≤ last a ":" + 1 → x ∉ chars (from a (last a ":" + 1))) as Hport.
  { intros x k ? Hx ? Hin. apply Hx. revert Hin. apply chars_from. lia. }
  pose proof (last_from a ":" ltac:(lia)) as Hcolon.
  pose proof (last_range a ":") as Hrange.
  case_bool_decide as Hopen.
  - case_bool_decide as Hend; [done|].
    case_bool_decide; [done|].
    case_bool_decide as Hei; [|by case_bool_decide].
    case_bool_decide as Ho; [done|]. case_bool_decide as Hc; [done|].
    intros [= <- <-]. rewrite IndexByteString_elem in Ho, Hc.
    destruct a as [|a0 a]; [done|].
    unfold at_ in Hopen. simpl in Hopen. injection Hopen as ->.
    assert (from (String "[" a) 1 = a) as Hrest
      by (change 1 with (len "["); apply (from_app "[" a)).
    rewrite Hrest in Ho.
    assert (IndexByteString (String "[" a) "]" = IndexByteString a "]" + 1)
      as Hidx.
    { simpl. pose proof (IndexByteString_range a "]").
      simpl in Hend. case_bool_decide; [lia|done]. }
    rewrite Hidx in *.
    replace (Z.to_nat (IndexByteString a "]" + 1 - 1))
      with (Z.to_nat (IndexByteString a "]")) by lia.
    change (String.substring 1 ?n (String "[" a)) with (String.substring 0 n a).
    change (String.substring 0 (Z.to_nat ?k) a) with (upto a k).
    split_and!.
    + apply ContainsAny_false_intro. intros c Hcs.
      apply elem_of_cons in Hcs as [->|Hcs%list_elem_of_singleton].
      * intros Hin. apply Ho. revert Hin. apply chars_substring.
      * subst c. apply IndexByteString_upto.
    + apply ContainsAny_false_intro. intros c Hcs.
      apply elem_of_cons in Hcs as [->|Hcs]; [done|].
      apply elem_of_cons in Hcs as [->|Hcs%list_elem_of_singleton].
      * apply (Hport _ 1); [lia| |lia]. by rewrite Hrest.
      * subst c. apply (Hport _ (IndexByteString a "]" + 1 + 1)); [lia|done|lia].
    + done.
  - case_bool_decide as Hh; [done|].
    case_bool_decide as Ho; [done|]. case_bool_decide as Hc; [done|].
    intros [= <- <-]. rewrite IndexByteString_elem in Hh, Ho, Hc.
    rewrite from_0 in Ho, Hc. split_and!.
    + apply ContainsAny_false_intro. intros c Hcs.
      apply elem_of_cons in Hcs as [->|Hcs%list_elem_of_singleton].
      * intros Hin. apply Ho. revert Hin. apply chars_substring.
      * subst c. intros Hin. apply Hc. revert Hin. apply chars_substring.
    + apply ContainsAny_false_intro. intros c Hcs.
      apply elem_of_cons in Hcs as [->|Hcs]; [done|].
      apply elem_of_cons in Hcs as [->|Hcs%list_elem_of_singleton].
      * intros Hin. apply Ho. revert Hin. apply chars_substring.
      * subst c. intros Hin. apply Hc. revert Hin. apply chars_substring.
    + done.
Qed.

(** Host and port are made of characters of the address. *)
Lemma SplitHostPort_chars a h p err x :
  SplitHostPort a = (h, p, err) →
  x ∈ chars h ∨ x ∈ chars p → x ∈ chars a.
Proof.
  unfold SplitHostPort. cbv zeta.
  repeat case_bool_decide; intros [= <- <- <-];
    intros [Hx|Hx]; try (by apply elem_of_nil in Hx);
    revert Hx; apply chars_substring.
Qed.

End split_results.

Section normal_forms.
Implicit Types (s h p t a o : string) (c x : ascii).

Lemma Normalize_split a h p :
  SplitHostPort a = (h, p, ErrNil) → "["%char ∉ chars h →
  Normalize a =
    Some (if bool_decide (p = "22") then h else "[" +:+ h +:+ "]:" +:+ p).
Proof.
  intros Hsplit Hh. unfold Normalize. rewrite Hsplit. simpl.
  case_bool_decide as Hp.
  - by rewrite bool_decide_eq_false_2.
  - rewrite bool_decide_eq_true_2 by done. by rewrite not_bracketed.
Qed.

Lemma Normalize_unsplit a :
  not_nil (SplitHostPort a).2 = true → "["%char ∉ chars a →
  Normalize a = Some a.
Proof.
  intros Herr Ha. unfold Normalize.
  destruct (SplitHostPort a) as [[h p] e]. simpl in Herr. rewrite Herr.
  rewrite bool_decide_eq_false_2 by (by intros []).
  by rewrite not_bracketed.
Qed.

Lemma SplitHostPort_no_colon a :
  ":"%char ∉ chars a → not_nil (SplitHostPort a).2 = true.
Proof.
  intros Ha. unfold SplitHostPort.
  rewrite bool_decide_eq_true_2; [done|].
  pose proof (last_elem a ":"). destruct (decide (0 ≤ last a ":")); [tauto|lia].
Qed.

(** X9: an address without brackets, written as a bare host or as
    host:port, normalizes as a known_hosts file writes it: the bare host
    and host:22 both give the host, and any other port gives
    [[host]:port]. *)
Theorem Normalize_plain h p :
  ContainsAny h ":[]" = false → ContainsAny p ":[]" = false →
  Normalize h = Some h ∧
  Normalize (h +:+ ":22") = Some h ∧
  Normalize (h +:+ ":" +:+ p) =
    Some (if bool_decide (p = "22") then h else "[" +:+ h +:+ "]:" +:+ p).
Proof.
  intros Hh Hp.
  assert ("["%char ∉ chars h) as Hopen
    by (apply (ContainsAny_false _ _ _ Hh); repeat constructor).
  assert (":"%char ∉ chars h) as Hcolon
    by (apply (ContainsAny_false _ _ _ Hh); repeat constructor).
  split_and!.
  - apply Normalize_unsplit; [|done]. by apply SplitHostPort_no_colon.
  - apply (Normalize_split _ h "22" (SplitHostPort_plain h "22" Hh eq_refl) Hopen).
  - by apply Normalize_split; [apply SplitHostPort_plain|].
Qed.

Lemma Normalize_plain_witness :
  Normalize "example.com" = Some "example.com" ∧
  Normalize ("example.com" +:+ ":22") = Some "example.com" ∧
  Normalize ("example.com" +:+ ":" +:+ "2222") =
    Some (if bool_decide ("2222" = "22") then "example.com"
          else "[" +:+ "example.com" +:+ "]:" +:+ "2222").
Proof. apply (Normalize_plain "example.com" "2222"); reflexivity. Defined.

(** X10: a bracketed address [[host]:port], the form an IPv6 literal
    needs, normalizes to the host when the port is 22 and to itself
    otherwise; the host may contain colons. *)
Theorem Normalize_bracketed h p :
  ContainsAny h "[]" = false → ContainsAny p ":[]" = false →
  Normalize ("[" +:+ h +:+ "]:" +:+ p) =
    Some (if bool_decide (p = "22") then h else "[" +:+ h +:+ "]:" +:+ p).
Proof.
  intros Hh Hp. apply Normalize_split; [by apply SplitHostPort_bracketed|].
  apply (ContainsAny_false _ _ _ Hh). repeat constructor.
Qed.

Lemma Normalize_bracketed_witness :
  Normalize ("[" +:+ "fe80::1" +:+ "]:" +:+ "2222") =
    Some (if bool_decide ("2222" = "22") then "fe80::1"
          else "[" +:+ "fe80::1" +:+ "]:" +:+ "2222").
Proof. apply (Normalize_bracketed "fe80::1" "2222"); reflexivity. Defined.

(** X11: a normalized address that carries a port is a fixed point of
    [Normalize]: normalizing it again changes nothing. *)
Theorem Normalize_with_port_stable a o :
  Normalize a = Some o → (resolved a).2 ≠ "22" → Normalize o = Some o.
Proof.
  intros Ho Hp. unfold resolved in Hp. unfold Normalize in Ho.
  destruct (SplitHostPort a) as [[h p] e] eqn:Hsplit.
  destruct (not_nil e) eqn:He; simpl in Hp; [done|].
  destruct e; try done.
  rewrite bool_decide_eq_true_2 in Ho by done. injection Ho as <-.
  apply SplitHostPort_ok in Hsplit as (Hh & Hport & _).
  rewrite (Normalize_split _ h p).
  - by rewrite bool_decide_eq_false_2.
  - by apply SplitHostPort_bracketed.
  - apply (ContainsAny_false _ _ _ Hh). repeat constructor.
Qed.

Lemma Normalize_with_port_stable_witness :
  Normalize "[example.com]:2222" = Some "[example.com]:2222".
Proof.
  apply (Normalize_with_port_stable "example.com:2222");
    [reflexivity|by vm_compute].
Defined.

(** X12: on addresses without brackets [Normalize] is idempotent. *)
Theorem Normalize_idempotent_unbracketed a :
  ContainsAny a "[]" = false →
  ∃ o, Normalize a = Some o ∧ Normalize o = Some o.
Proof.
  intros Ha.
  assert ("["%char ∉ chars a) as Hopen
    by (apply (ContainsAny_false _ _ _ Ha); repeat constructor).
  destruct (SplitHostPort a) as [[h p] e] eqn:Hsplit.
  destruct (not_nil e) eqn:He.
  - exists a. assert (Normalize a = Some a) as Hn; [|done].
    apply Normalize_unsplit; [|done]. by rewrite Hsplit.
  - destruct e; try done.
    pose proof (SplitHostPort_ok _ _ _ Hsplit) as (Hh & Hp & Hcolon).
    assert ("["%char ∉ chars h) as Hho
      by (apply (ContainsAny_false _ _ _ Hh); repeat constructor).
    rewrite (Normalize_split _ _ _ Hsplit Hho).
    eexists; split; [done|]. case_bool_decide.
    + apply Normalize_unsplit; [|done]. apply SplitHostPort_no_colon.
      apply Hcolon. intros Hat%at_0_elem. done.
    + rewrite (Normalize_split _ h p); [|by apply SplitHostPort_bracketed|done].
      by rewrite bool_decide_eq_false_2.
Qed.

Lemma Normalize_idempotent_unbracketed_witness :
  ∃ o, Normalize "example.com:22" = Some o ∧ Normalize o = Some o.
Proof. apply (Normalize_idempotent_unbracketed "example.com:22"). reflexivity. Defined.

(** With brackets in the address a second normalization can strip more. *)
Remark Normalize_not_idempotent :
  ∃ a o o', Normalize a = Some o ∧ Normalize o = Some o' ∧ o ≠ o'.
Proof. by exists "[a:22]:22", "a:22", "a". Qed.

Lemma chars_slice s lo hi t x : slice s lo hi = Some t → x ∈ chars t → x ∈ chars s.
Proof.
  unfold slice. case_bool_decide; [|done]. intros [= <-]. apply chars_substring.
Qed.

Lemma Normalize_alphabet a o :
  Normalize a = Some o → ∀ x, x ∈ chars o → x ∈ chars a ∨ x ∈ chars "[]:".
Proof.
  unfold Normalize.
  destruct (SplitHostPort a) as [[h p] e] eqn:Hsplit.
  assert (∀ host port,
    (if not_nil e then (a, "22") else (h, p)) = (host, port) →
    ∀ x, x ∈ chars host ∨ (port ≠ "22" ∧ x ∈ chars port) → x ∈ chars a)
    as Hparts.
  { intros host port Heq x Hx. destruct (not_nil e).
    - injection Heq as <- <-. by destruct Hx as [?|[? _]].
    - injection Heq as <- <-. apply (SplitHostPort_chars _ _ _ _ _ Hsplit).
      destruct Hx as [?|[_ ?]]; [by left|by right]. }
  destruct (if not_nil e then _ else _) as [host port].
  specialize (Hparts host port eq_refl).
  case_bool_decide as Hport.
  - intros [= <-] x. rewrite !chars_app, !elem_of_app.
    intros [Hx|[Hx|[Hx|Hx]]];
      [right|left; apply Hparts; by left|right|left; apply Hparts; by right].
    + apply list_elem_of_singleton in Hx as ->. repeat constructor.
    + change (x ∈ ["]"%char; ":"%char]) in Hx.
      revert Hx. rewrite !elem_of_cons. intros [->|[->|Hx]].
      * repeat constructor.
      * repeat constructor.
      * by apply elem_of_nil in Hx.
  - destruct (HasPrefix host "[" && HasSuffix host "]").
    + intros Hs x Hx. left. apply Hparts. left.
      by apply (chars_slice _ _ _ _ _ Hs).
    + intros [= <-] x Hx. left. apply Hparts. by left.
Qed.

Lemma Normalize_blank_free a o :
  Normalize a = Some o →
  ContainsAny a tab_space = false → ContainsAny o tab_space = false.
Proof.
  intros Hn Ha. apply ContainsAny_false_intro. intros c Hc Hin.
  apply (Normalize_alphabet _ _ Hn) in Hin as [Hin|Hin].
  - by apply (ContainsAny_false _ _ _ Ha Hc).
  - revert Hc Hin. unfold tab_space. vm_compute. intros Hc Hin.
    repeat (apply elem_of_cons in Hc as [->|Hc];
      [repeat (apply elem_of_cons in Hin as [Hin|Hin]; [done|]);
       by apply elem_of_nil in Hin|]).
    by apply elem_of_nil in Hc.
Qed.

(** X13: [Normalize] only rearranges: every character of the result is
    a character of the address or one of the brackets and the colon it
    puts around host and port.  So an address free of blanks and tabs
    stays free of them. *)
Theorem Normalize_chars a o :
  Normalize a = Some o →
  (∀ x, x ∈ chars o → x ∈ chars a ∨ x ∈ chars "[]:") ∧
  (ContainsAny a tab_space = false → ContainsAny o tab_space = false).
Proof.
  intros Hn. split.
  - by apply Normalize_alphabet.
  - by apply Normalize_blank_free.
Qed.

Lemma Normalize_chars_witness :
  (∀ x, x ∈ chars "[fe80::1]:2222" → x ∈ chars "[fe80::1]:2222" ∨ x ∈ chars "[]:") ∧
  (ContainsAny "[fe80::1]:2222" tab_space = false →
   ContainsAny "[fe80::1]:2222" tab_space = false).
Proof. apply (Normalize_chars "[fe80::1]:2222" "[fe80::1]:2222"). reflexivity. Defined.

End normal_forms.

(** ** Lines written to a known_hosts file *)

Section written_lines.
Implicit Types (s h p t a o : string) (c x : ascii).

Lemma Normalize_returns a : is_Some (Normalize a).
Proof.
  unfold Normalize. destruct (SplitHostPort a) as [[h p] e].
  destruct (if not_nil e then _ else _) as [host port].
  case_bool_decide; [done|].
  destruct (HasPrefix host "[" && HasSuffix host "]") eqn:Hb; [|done].
  apply bracketed_true in Hb as (inner & _ & ->). done.
Qed.

Lemma ContainsAny_app s t cs :
  ContainsAny (s +:+ t) cs = ContainsAny s cs || ContainsAny t cs.
Proof.
  induction s as [|a s IH]; [done|].
  change (String a s +:+ t) with (String a (s +:+ t)). simpl.
  by rewrite IH, orb_assoc.
Qed.

Lemma get_elem (n : nat) s c : String.get n s = Some c → c ∈ chars s.
Proof.
  revert n. induction s as [|a s IH]; intros [|n]; simpl; try done.
  - intros [= ->]. rewrite chars_cons. by left.
  - intros Hn. rewrite chars_cons. right. by eapply IH.
Qed.

Lemma digit_blank_free val shift :
  base64.digit val shift ≠ " "%char ∧ base64.digit val shift ≠ "009"%char.
Proof.
  unfold base64.digit.
  destruct (String.get _ base64.encodeStd) as [c|] eqn:Hget; [|done].
  apply get_elem in Hget. revert c Hget. apply Forall_forall.
  apply (bool_decide_unpack _). by vm_compute.
Qed.

(** The base64 text of a key holds no blank and no tab. *)
Lemma EncodeToString_blank_free src :
  ContainsAny (base64.EncodeToString src) tab_space = false.
Proof.
  assert (∀ val shift,
    bool_decide (0 ≤ IndexByteString tab_space (base64.digit val shift)) = false)
    as Hdigit.
  { intros val shift. apply index_absent.
    destruct (digit_blank_free val shift) as [Hsp Htab].
    intros [?|[?|?%elem_of_nil]%elem_of_cons]%elem_of_cons; done. }
  assert (ContainsAny (base64.EncodeToString src) tab_space = false ∧
          (∀ b, ContainsAny (base64.EncodeToString (b :: src)) tab_space = false) ∧
          (∀ b b', ContainsAny (base64.EncodeToString (b :: b' :: src)) tab_space
                   = false)) as (? & _ & _); [|done].
  assert (bool_decide (0 ≤ IndexByteString tab_space "=") = false) as Hpad
    by reflexivity.
  induction src as [|b0 src (IH0 & IH1 & IH2)].
  - split_and!; intros; cbn [base64.EncodeToString ContainsAny];
      by rewrite ?Hdigit, ?Hpad.
  - split_and!.
    + exact (IH1 b0).
    + intros b. exact (IH2 b b0).
    + intros b b'. cbn [base64.EncodeToString ContainsAny].
      by rewrite !Hdigit, IH0.
Qed.

Lemma Line_eq addresses key trimmed :
  mapM Normalize addresses = Some trimmed →
  Line addresses key =
    Some (Join trimmed "," +:+ " " +:+ ssh.Type' key +:+ " " +:+
          base64.EncodeToString (ssh.Marshal key)).
Proof. unfold Line. by intros ->. Qed.

(** The address list [WriteKnownHost] collects: the normalized hostname,
    followed by the normalized remote address unless that is the zero
    address, the same as the hostname, or holds a blank or a tab. *)
Definition listed (hostnameNormalized remoteStrNormalized : string)
  : list string :=
  if negb (String.eqb remoteStrNormalized "[0.0.0.0]:0")
     && negb (String.eqb remoteStrNormalized hostnameNormalized)
     && negb (ContainsAny remoteStrNormalized tab_space)
  then [hostnameNormalized; remoteStrNormalized] else [hostnameNormalized].

Lemma WriteKnownHost_eq {W} `{Writer W} (w : W) hostname remote key hn rn trimmed :
  Normalize hostname = Some hn → ContainsAny hn tab_space = false →
  Normalize (net.String' remote) = Some rn →
  mapM Normalize (listed hn rn) = Some trimmed →
  WriteKnownHost w hostname remote key =
    Some (let r := Write w (String.list_byte_of_string
            ((Join trimmed "," +:+ " " +:+ ssh.Type' key +:+ " " +:+
              base64.EncodeToString (ssh.Marshal key)) +:+ String "010" ""))
          in (r.1, r.2.2)).
Proof.
  intros Hhn Hblank Hrn Htrimmed. unfold WriteKnownHost.
  rewrite Hhn. cbn [mbind option_bind]. rewrite Hblank, Hrn.
  cbn [mbind option_bind].
  change (if _ && _ && _ then [hn] ++ [rn] else [hn]) with (listed hn rn).
  rewrite (Line_eq _ _ _ Htrimmed). cbn [mbind option_bind].
  by destruct (Write w _) as [w' [n err]].
Qed.

Lemma listed_blank_free hn rn trimmed :
  ContainsAny hn tab_space = false →
  mapM Normalize (listed hn rn) = Some trimmed →
  ContainsAny (Join trimmed ",") tab_space = false.
Proof.
  intros Hhn. unfold listed.
  destruct (negb (String.eqb rn "[0.0.0.0]:0") && negb (String.eqb rn hn)
            && negb (ContainsAny rn tab_space)) eqn:Hcond.
  - apply andb_prop in Hcond as [_ Hrn%negb_true_iff].
    cbn [mapM]. destruct (Normalize hn) as [hn'|] eqn:Hhn'; [|done].
    destruct (Normalize rn) as [rn'|] eqn:Hrn'; [|done].
    intros [= <-]. unfold Join. cbn [String.concat].
    rewrite !ContainsAny_app.
    rewrite (Normalize_blank_free _ _ Hhn' Hhn).
    by rewrite (Normalize_blank_free _ _ Hrn' Hrn).
  - cbn [mapM]. destruct (Normalize hn) as [hn'|] eqn:Hhn'; [|done].
    intros [= <-]. unfold Join. cbn [String.concat].
    by rewrite (Normalize_blank_free _ _ Hhn' Hhn).
Qed.

Lemma listed_normalized hn rn : is_Some (mapM Normalize (listed hn rn)).
Proof.
  unfold listed. destruct (_ && _ && _); cbn [mapM].
  - destruct (Normalize_returns hn) as [? ->].
    by destruct (Normalize_returns rn) as [? ->].
  - by destruct (Normalize_returns hn) as [? ->].
Qed.



End written_lines.

Section written_addresses.
Implicit Types (s h p t a o : string) (c x : ascii).

Lemma plain_unbracketed h :
  ContainsAny h ":[]" = false → ContainsAny h "[]" = false.
Proof.
  intros Hh. apply ContainsAny_false_intro. intros c Hc.
  apply (ContainsAny_false _ _ _ Hh).
  apply elem_of_cons in Hc as [->|Hc%list_elem_of_singleton];
    [|subst c]; repeat constructor.
Qed.

(** The entry of a plain host and port is a fixed point of [Normalize]. *)
Lemma Normalize_entry h p :
  ContainsAny h ":[]" = false → ContainsAny p ":[]" = false →
  let entry := if bool_decide (p = "22") then h
               else "[" +:+ h +:+ "]:" +:+ p in
  Normalize (h +:+ ":" +:+ p) = Some entry ∧ Normalize entry = Some entry.
Proof.
  intros Hh Hp entry.
  assert ("["%char ∉ chars h) as Hopen
    by (apply (ContainsAny_false _ _ _ Hh); repeat constructor).
  assert (":"%char ∉ chars h) as Hcolon
    by (apply (ContainsAny_false _ _ _ Hh); repeat constructor).
  split.
  - by apply Normalize_split; [apply SplitHostPort_plain|].
  - unfold entry. case_bool_decide as Hport.
    + apply Normalize_unsplit; [|done]. by apply SplitHostPort_no_colon.
    + rewrite (Normalize_split _ h p);
        [|by apply SplitHostPort_bracketed; [apply plain_unbracketed|]|done].
      by rewrite bool_decide_eq_false_2.
Qed.



End written_addresses.

(** ** The permissive callbacks of the command *)

Section permissive_callback.
Context {W : Type} `{Writer W}.

Lemma not_nil_false err : not_nil err = false ↔ err = ErrNil.
Proof. by destruct err. Qed.

Lemma changed_not_unknown err :
  IsHostKeyChanged err = true → IsHostUnknown err = false.
Proof.
  unfold IsHostKeyChanged, IsHostUnknown.
  destruct (errors_As err) as [keyErr|]; [|done].
  intros Hlen%bool_decide_eq_true. apply bool_decide_eq_false. lia.
Qed.

Lemma WriteKnownHost_returns (w : W) hostname remote key :
  is_Some (WriteKnownHost w hostname remote key).
Proof.
  destruct (Normalize_returns hostname) as [hn Hhn].
  destruct (ContainsAny hn tab_space) eqn:Hblank.
  - unfold WriteKnownHost. rewrite Hhn. cbn [mbind option_bind].
    by rewrite Hblank.
  - destruct (Normalize_returns (net.String' remote)) as [rn Hrn].
    destruct (listed_normalized hn rn) as [trimmed Htrimmed].
    by rewrite (WriteKnownHost_eq w _ _ key _ _ _ Hhn Hblank Hrn Htrimmed).
Qed.

(** X16: a permissive callback always returns, and it accepts the key
    (returns nil) exactly when the callback it asks accepts it or
    reports the host as unknown; every other error, a changed or a
    revoked key among them, makes it fail.  The known_hosts file is
    opened only for an unknown host. *)
Theorem permissive_accepts_iff (inner : ssh_HostKeyCallback)
    (opened : W + error) (hostname : string) (remote : net.Addr)
    (key : ssh.PublicKey) :
  ∃ file err,
    cmd.permissive inner opened hostname remote key = Some (file, err) ∧
    (not_nil err = false ↔
       inner hostname remote key = ErrNil ∨
       IsHostUnknown (inner hostname remote key) = true) ∧
    (is_Some file → IsHostUnknown (inner hostname remote key) = true) ∧
    (∀ revErr, inner hostname remote key = RevokedErr revErr →
       err = RevokedErr revErr).
Proof.
  unfold cmd.permissive. cbv zeta.
  destruct (IsHostKeyChanged (inner hostname remote key)) eqn:Hchanged.
  - pose proof (changed_not_unknown _ Hchanged) as Hunknown.
    eexists _, _. split; [done|]. split_and!.
    + split; [done|]. intros [Hnil|Hu]; [|congruence].
      by rewrite Hnil in Hchanged.
    + by intros [? [=]].
    + intros revErr Hrev. by rewrite Hrev in Hchanged.
  - destruct (IsHostUnknown (inner hostname remote key)) eqn:Hunknown.
    + destruct opened as [f|ferr].
      * destruct (WriteKnownHost_returns f hostname remote key)
          as [[f' ferr] ->].
        eexists _, _. split; [done|]. split_and!; [by split; [right|]|done|].
        intros revErr Hrev. by rewrite Hrev in Hunknown.
      * eexists _, _. split; [done|]. split_and!; [by split; [right|]|done|].
        intros revErr Hrev. by rewrite Hrev in Hunknown.
    + eexists _, _. split; [done|]. split_and!.
      * rewrite not_nil_false. split; [by left|]. by intros [?|?].
      * by intros [? [=]].
      * done.
Qed.

(** X17: when the callback asked fails with a chain of errors that wraps
    a mismatch with known keys, the key of the host has changed, and a
    permissive callback fails with the message that names the host; the
    file is not opened. *)
Theorem permissive_rejects_changed_key (inner : ssh_HostKeyCallback)
    (opened : W + error) (hostname : string) (remote : net.Addr)
    (key : ssh.PublicKey) (keyErr : xknownhosts.KeyError) :
  chain (inner hostname remote key) = true →
  Wraps (inner hostname remote key) keyErr →
  xknownhosts.Want keyErr ≠ [] →
  cmd.permissive inner opened hostname remote key
  = Some (None, errorString
            ("REMOTE HOST IDENTIFICATION HAS CHANGED for host " +:+ hostname
             +:+ "! This may indicate a MitM attack.")).
Proof.
  intros Hchain Hwraps Hwant. unfold cmd.permissive. cbv zeta.
  replace (IsHostKeyChanged (inner hostname remote key)) with true; [done|].
  unfold IsHostKeyChanged.
  rewrite (chain_wraps_errors_As _ _ Hchain Hwraps).
  symmetry. apply bool_decide_eq_true.
  destruct (xknownhosts.Want keyErr); [done|]. simpl. lia.
Qed.

(** X18: an unknown host whose normalized name holds a blank or a tab is
    accepted by a permissive callback although nothing is written: the
    file is opened and left as it was, and the error of
    [WriteKnownHost] is dropped. *)
Theorem permissive_accepts_unrecorded (inner : ssh_HostKeyCallback)
    (f : W) (hostname : string) (remote : net.Addr) (key : ssh.PublicKey)
    (hostnameNormalized : string) :
  IsHostUnknown (inner hostname remote key) = true →
  Normalize hostname = Some hostnameNormalized →
  ContainsAny hostnameNormalized tab_space = true →
  cmd.permissive inner (inl f) hostname remote key = Some (Some f, ErrNil).
Proof.
  intros Hunknown Hhn Hblank. unfold cmd.permissive. cbv zeta.
  destruct (IsHostKeyChanged (inner hostname remote key)) eqn:Hchanged.
  - apply changed_not_unknown in Hchanged. congruence.
  - rewrite Hunknown. unfold WriteKnownHost. rewrite Hhn.
    cbn [mbind option_bind]. by rewrite Hblank.
Qed.

End permissive_callback.

Lemma permissive_rejects_changed_key_witness :
  cmd.permissive (W:=list Byte.byte)
    (λ _ _ _, wrapError "ssh: handshake failed"
                (KeyErr {| xknownhosts.Want :=
                  [ {| xknownhosts.Key := sample.rsaKey;
                       xknownhosts.Filename := "a/known_hosts";
                       xknownhosts.Line := 1 |} ] |}))
    (inl []) "example.com:22"
    {| net.Network := "tcp"; net.String' := "192.0.2.7:22" |}
    sample.ed25519Key
  = Some (None, errorString
            ("REMOTE HOST IDENTIFICATION HAS CHANGED for host "
             +:+ "example.com:22"
             +:+ "! This may indicate a MitM attack.")).
Proof.
  apply (permissive_rejects_changed_key (W:=list Byte.byte)
           (λ _ _ _, wrapError "ssh: handshake failed"
                (KeyErr {| xknownhosts.Want :=
                  [ {| xknownhosts.Key := sample.rsaKey;
                       xknownhosts.Filename := "a/known_hosts";
                       xknownhosts.Line := 1 |} ] |}))
           (inl []) "example.com:22"
           {| net.Network := "tcp"; net.String' := "192.0.2.7:22" |}
           sample.ed25519Key
           {| xknownhosts.Want :=
                [ {| xknownhosts.Key := sample.rsaKey;
                     xknownhosts.Filename := "a/known_hosts";
                     xknownhosts.Line := 1 |} ] |}).
  - reflexivity.
  - apply Wraps_wrap, Wraps_here.
  - discriminate.
Defined.

Lemma permissive_accepts_unrecorded_witness :
  cmd.permissive (W:=list Byte.byte)
    (λ _ _ _, KeyErr {| xknownhosts.Want := [] |})
    (inl []) "my host:22"
    {| net.Network := "tcp"; net.String' := "192.0.2.7:22" |} sample.rsaKey
  = Some (Some [], ErrNil).
Proof.
  apply (permissive_accepts_unrecorded (W:=list Byte.byte)
           (λ _ _ _, KeyErr {| xknownhosts.Want := [] |})
           [] "my host:22"
           {| net.Network := "tcp"; net.String' := "192.0.2.7:22" |}
           sample.rsaKey "my host"); reflexivity.
Defined.
